(** * SMART client for NodeJS: the request pipeline of [src/client.ts]

    A shallow embedding of [Client.request], [Client.refresh] and
    [Client.getPages], and the properties of the specification that concern
    them.

    - JavaScript values are the JSON values the client receives and stores;
      numbers are integers, [JNum n] standing for the double nearest to [n],
      and strings are sequences of 8-bit code units.
    - A JavaScript object used as a record of named fields (request options,
      headers, the token response) is a [gmap string JsVal].
    - A promise is a function of the machine (client state, outside world,
      log of the requests handed to the transport) that settles or stays
      pending; recursion is bounded by fuel, and a run that exhausts its fuel
      stays pending. *)

From Stdlib Require Import Ascii.
From stdpp Require Import gmap strings list fin_maps pretty.

Open Scope string_scope.
Open Scope Z_scope.

(** ** JavaScript values *)

Module Js.

#[warnings="-register-all"]
Inductive JsVal :=
| JUndefined
| JNull
| JBool (b : bool)
| JNum (n : Z)
| JStr (s : string)
| JArr (l : list JsVal)
| JObj (m : gmap string JsVal).

(** [if (v)], [!v], [a && b], [a || b]: ToBoolean. *)
Definition truthy (v : JsVal) : bool :=
  match v with
  | JUndefined | JNull => false
  | JBool b => b
  | JNum n => negb (n =? 0)
  | JStr s => negb (String.eqb s "")
  | JArr _ | JObj _ => true
  end.

(** An optional field read: a missing key reads as [undefined]. *)
Definition of_lookup (o : option JsVal) : JsVal := default JUndefined o.

(** *** Number::toString

    A number prints as the shortest decimal that reads back as the same
    double: in full up to 21 digits, and from [1e+21] on with an exponent. *)

(** The double nearest to the positive integer [p], ties to the even
    mantissa; [None] is [Infinity]. *)
Definition double_of (p : Z) : option Z :=
  let bits := Z.log2 p + 1 in
  if bits <=? 53 then Some p
  else
    let shift := bits - 53 in
    let q := Z.shiftr p shift in
    let rest := p - Z.shiftl q shift in
    let half := Z.shiftl 1 (shift - 1) in
    let q' := if (half <? rest) || ((rest =? half) && Z.odd q) then q + 1 else q in
    let v := Z.shiftl q' shift in
    if 2 ^ 1024 <=? v then None else Some v.

Definition digits (v : Z) : Z := Z.of_nat (String.length (pretty v)).

(** The decimal [v] reads back as the double [x]. *)
Definition reads_as (x v : Z) : bool :=
  match double_of v with
  | Some y => y =? x
  | None => false
  end.

(** The decimal of the fewest significant digits, [k] or more, that reads
    back as the double [x]; of two such the nearer to [x], and of two
    equally near the one with the even last digit. Seventeen digits always
    suffice. *)
Fixpoint shortest (fuel : nat) (k : Z) (x : Z) : Z :=
  match fuel with
  | O => x
  | S fuel' =>
      let unit := 10 ^ (digits x - k) in
      let lo := (x / unit) * unit in
      let hi := lo + unit in
      if (digits x <=? k) || (lo =? x) then x
      else
        match reads_as x lo, reads_as x hi with
        | true, true =>
            if x - lo <? hi - x then lo
            else if hi - x <? x - lo then hi
            else if Z.even (lo / unit) then lo else hi
        | true, false => lo
        | false, true => hi
        | false, false => shortest fuel' (k + 1) x
        end
  end.

Fixpoint strip_zeros (s : string) : string :=
  match s with
  | EmptyString => EmptyString
  | String c s' =>
      match strip_zeros s' with
      | EmptyString => if Ascii.eqb c "0"%char then EmptyString else String c EmptyString
      | r => String c r
      end
  end.

(** The text of the positive integer [v]: its digits when they are at most
    21, and otherwise its significant digits, a point after the first of
    them, and the exponent. *)
Definition format (v : Z) : string :=
  if digits v <=? 21 then pretty v
  else
    match strip_zeros (pretty v) with
    | String c EmptyString => String c EmptyString +:+ "e+" +:+ pretty (digits v - 1)
    | String c more => String c ("." +:+ more) +:+ "e+" +:+ pretty (digits v - 1)
    | EmptyString => pretty v
    end.

Definition positive_toString (p : Z) : string :=
  match double_of p with
  | Some x => format (shortest 17 1 x)
  | None => "Infinity"
  end.

Definition number_toString (n : Z) : string :=
  if n =? 0 then "0"
  else if n <? 0 then "-" +:+ positive_toString (- n)
  else positive_toString n.

(** The conversion of a template literal, [`${v}`]: ToString. An array is
    its elements joined by commas, with [null] and [undefined] elements
    printed as nothing; a plain object is ["[object Object]"]. *)
Fixpoint toString (v : JsVal) : string :=
  match v with
  | JUndefined => "undefined"
  | JNull => "null"
  | JBool true => "true"
  | JBool false => "false"
  | JNum n => number_toString n
  | JStr s => s
  | JArr l =>
      String.concat ","
        (List.map (fun x => match x with
                            | JUndefined | JNull => ""
                            | _ => toString x
                            end) l)
  | JObj _ => "[object Object]"
  end.

(** The code units of a string, each as a one-unit string value. *)
Fixpoint units (s : string) : list JsVal :=
  match s with
  | EmptyString => []
  | String c s' => JStr (String c EmptyString) :: units s'
  end.

(** The index-keyed properties of an array-like sequence of elements. *)
Definition indexed (l : list JsVal) : gmap string JsVal :=
  list_to_map (imap (fun i x => (pretty i, x)) l).

(** The own enumerable properties of a value, the ones an object spread
    [{...v}] copies: the fields of an object, the elements of an array and
    the code units of a string by index, nothing for any other value. *)
Definition own_props (v : JsVal) : gmap string JsVal :=
  match v with
  | JObj m => m
  | JArr l => indexed l
  | JStr s => indexed (units s)
  | _ => ∅
  end.

(** Property read [v.k] on a JSON value. [None] is the TypeError that the
    runtime raises on [undefined.k] and [null.k]. Arrays and strings carry
    [length] besides their indices; methods of the prototypes are not
    properties of this model. *)
Definition get (v : JsVal) (k : string) : option JsVal :=
  match v with
  | JUndefined | JNull => None
  | JBool _ | JNum _ => Some JUndefined
  | JStr s =>
      Some (if decide (k = "length") then JNum (Z.of_nat (String.length s))
            else of_lookup (own_props v !! k))
  | JArr l =>
      Some (if decide (k = "length") then JNum (Z.of_nat (length l))
            else of_lookup (own_props v !! k))
  | JObj m => Some (of_lookup (m !! k))
  end.

(** [v == s] for a string literal [s] that is not the text of a number:
    a string compares by content, an array or object through its string
    conversion, and every other value is different. *)
Definition loose_eq_text (v : JsVal) (s : string) : bool :=
  match v with
  | JStr t => String.eqb t s
  | JArr _ | JObj _ => String.eqb (toString v) s
  | _ => false
  end.

(** The line feed of ["\n"]. *)
Definition LF : string := String "010"%char EmptyString.

End Js.
Import Js.

(** ** [String.prototype.replace] with the pattern [/\/?$/]

    The pattern is tried at every position from the left; the first match is
    replaced. At one position the optional slash is taken greedily, then [$]
    demands the end of the input. *)

(** Length of the match of [/\/?$/] at the head of [s], if there is one. *)
Definition match_slash_end (s : string) : option nat :=
  match s with
  | EmptyString => Some 0%nat
  | String c EmptyString => if Ascii.eqb c "/"%char then Some 1%nat else None
  | String _ _ => None
  end.

Fixpoint drop_units (n : nat) (s : string) : string :=
  match n, s with
  | S n', String _ s' => drop_units n' s'
  | _, _ => s
  end.

(** [s.replace(/\/?$/, "/")] *)
Fixpoint replace_slash_end (s : string) : string :=
  match match_slash_end s with
  | Some n => "/" +:+ drop_units n s
  | None =>
      match s with
      | String c s' => String c (replace_slash_end s')
      | EmptyString => s
      end
  end.

(** [s] ends with a slash. *)
Fixpoint ends_with_slash (s : string) : bool :=
  match s with
  | EmptyString => false
  | String c EmptyString => Ascii.eqb c "/"%char
  | String _ s' => ends_with_slash s'
  end.

(** ** Data model *)

(** The options of one HTTP call: [url], [method], [baseURL], [headers],
    [data] and whatever else the caller put there. *)
Abbreviation AxiosRequestConfig := (gmap string JsVal).

(** What the transport resolves with, and what [error.response] holds. *)
Record AxiosResponse := {
  status : Z;
  data : JsVal;
  headers : gmap string JsVal
}.

(** The values a promise of this program is rejected with. *)
Inductive JsError :=
| AxiosError (message : string) (response : option AxiosResponse)
| Error (message : string)       (* [new Error(message)] *)
| TypeError.                     (* raised by the runtime; its text is the engine's *)

(** [error.response] *)
Definition response (error : JsError) : option AxiosResponse :=
  match error with
  | AxiosError _ r => r
  | _ => None
  end.

Definition message (error : JsError) : option string :=
  match error with
  | AxiosError msg _ | Error msg => Some msg
  | TypeError => None
  end.

(** Modelled from the spec: the declaration of [SMART.ClientState] is not in
    the sources; these are the fields of the AuthorizationState of the
    specification. A missing [tokenResponse] means "not yet authorized". *)
Record ClientState := {
  serverUrl : string;
  tokenUri : option string;
  authorizeUri : option string;
  scope : string;
  tokenResponse : option (gmap string JsVal)
}.

Definition set_tokenResponse (tr : option (gmap string JsVal)) (st : ClientState)
  : ClientState :=
  {| serverUrl := serverUrl st; tokenUri := tokenUri st;
     authorizeUri := authorizeUri st; scope := scope st;
     tokenResponse := tr |}.

(** The argument of [request] and [getPages]: [AxiosRequestConfig | string].
    The defaults of the source ([options = {}], [maxPages = 100],
    [result = []]) are what a caller of the model passes. *)
Inductive RequestArg :=
| Url (url : string)
| Config (options : gmap string JsVal).

(** ** The records above seen as JavaScript objects *)

Definition opt_str (o : option string) : JsVal :=
  match o with
  | Some s => JStr s
  | None => JUndefined
  end.

Definition opt_field (k : string) (o : option JsVal) (m : gmap string JsVal)
  : gmap string JsVal :=
  match o with
  | Some v => <[k := v]> m
  | None => m
  end.

Definition response_obj (r : AxiosResponse) : JsVal :=
  JObj (<["status" := JNum (status r)]>
        (<["data" := data r]>
         (<["headers" := JObj (headers r)]> ∅))).

Definition error_obj (error : JsError) : JsVal :=
  JObj (opt_field "message" (JStr <$> message error)
        (opt_field "response" (response_obj <$> response error) ∅)).

Definition state_obj (st : ClientState) : JsVal :=
  JObj (<["serverUrl" := JStr (serverUrl st)]>
        (<["scope" := JStr (scope st)]>
         (opt_field "tokenUri" (JStr <$> tokenUri st)
          (opt_field "authorizeUri" (JStr <$> authorizeUri st)
           (opt_field "tokenResponse" (JObj <$> tokenResponse st) ∅))))).

(** ** The helpers of [./lib] *)

(** Modelled from the spec: [getPath] of [./lib] is not in the sources. It
    reads a dot-separated path (given here already split) and yields
    [undefined] as soon as a step has nothing to read from: "an access token
    is present", "a refresh token is currently present", "the response body
    is a recognized structured error payload". *)
Definition getPath (obj : JsVal) (path : list string) : JsVal :=
  fold_left
    (fun out key => if truthy out then of_lookup (Js.get out key) else JUndefined)
    path obj.

(** Modelled from the spec: [getBundleURL] of [./lib] is not in the sources.
    "Scan the bundle's link list for an entry whose relation label equals
    [rel]; if found, follow its URL"; [null] when there is none. *)
Definition getBundleURL (bundle : JsVal) (rel : string) : JsVal :=
  match Js.get bundle "link" with
  | Some (JArr links) =>
      match List.find (fun l => match Js.get l "relation" with
                                | Some (JStr r) => String.eqb r rel
                                | _ => false
                                end) links with
      | Some l => if truthy (of_lookup (Js.get l "url"))
                  then of_lookup (Js.get l "url") else JNull
      | None => JNull
      end
  | _ => JNull
  end.

(** ** Promises *)

(** How a promise settles. *)
Inductive Settled (A : Type) :=
| Fulfilled (a : A)
| Rejected (e : JsError).
Arguments Fulfilled {A} a.
Arguments Rejected {A} e.

Section Client.

(** The outside world: whatever decides the answers of the servers. *)
Context {World : Type}.

(** The HTTP transport, [request] of the axios package: it resolves with the
    response or rejects with an error, and moves the world on. *)
Variable axios : AxiosRequestConfig -> World -> Settled AxiosResponse * World.

(** [getErrorText] of [./lib], which is not in the sources: the table of
    fixed error texts. *)
Variable getErrorText : string -> string.

(** [querystring.stringify] of NodeJS on an object given by its fields in
    order. *)
Variable querystring_stringify : list (string * JsVal) -> string.

(** The client's state object, the world, and the requests handed to the
    transport so far, oldest first. *)
Record Machine := {
  state : ClientState;
  world : World;
  sent : list AxiosRequestConfig
}.

(** A promise runs on a machine and leaves it changed. It settles, or it
    stays pending ([None]): the fuel of a recursion is exhausted, or the run
    meets an operation outside the modelled fragment of JavaScript. *)
Definition Promise (A : Type) : Type := Machine -> option (Settled A) * Machine.

Definition resolve {A} (a : A) : Promise A := fun m => (Some (Fulfilled a), m).
Definition throw {A} (e : JsError) : Promise A := fun m => (Some (Rejected e), m).
Definition pending {A} : Promise A := fun m => (None, m).

(** [p.then(f)] *)
Definition then_ {A B} (p : Promise A) (f : A -> Promise B) : Promise B :=
  fun m =>
    match p m with
    | (Some (Fulfilled a), m') => f a m'
    | (Some (Rejected e), m') => (Some (Rejected e), m')
    | (None, m') => (None, m')
    end.

(** [p.catch(h)] *)
Definition catch {A} (p : Promise A) (h : JsError -> Promise A) : Promise A :=
  fun m =>
    match p m with
    | (Some (Rejected e), m') => h e m'
    | settled => settled
    end.

#[local] Instance promise_ret : MRet Promise := @resolve.
#[local] Instance promise_bind : MBind Promise := fun A B f p => then_ p f.

(** [this.state] *)
Definition get_state : Promise ClientState :=
  fun m => (Some (Fulfilled (state m)), m).

Definition put_state (st : ClientState) : Promise unit :=
  fun m => (Some (Fulfilled tt), {| state := st; world := world m; sent := sent m |}).

(** The machine after [options] went to the transport and the world moved
    on to [w]. *)
Definition after_send (options : AxiosRequestConfig) (w : World) (m : Machine)
  : Machine :=
  {| state := state m; world := w; sent := (sent m ++ [options])%list |}.

(** One call of the transport. *)
Definition send (options : AxiosRequestConfig) : Promise AxiosResponse :=
  fun m =>
    let '(r, w) := axios options (world m) in
    (Some r, after_send options w m).

(** ** [Client.refresh] *)

(** The request of the refresh-token grant (lines 102-111). *)
Definition refresh_options (st : ClientState) : AxiosRequestConfig :=
  let refreshToken := getPath (state_obj st) ["tokenResponse"; "refresh_token"] in
  <["method" := JStr "POST"]>
  (<["url" := opt_str (tokenUri st)]>
   (<["headers" :=
        JObj (<["content-type" := JStr "application/x-www-form-urlencoded"]> ∅)]>
    (<["data" :=
         JStr (querystring_stringify
                 [("grant_type", JStr "refresh_token");
                  ("refresh_token", refreshToken)])]> ∅))).

(** [!this.state.tokenResponse || !this.state.tokenResponse.refresh_token] *)
Definition no_refresh_token (st : ClientState) : bool :=
  match tokenResponse st with
  | None => true
  | Some tr => negb (truthy (of_lookup (tr !! "refresh_token")))
  end.

(** [{ ...this.state.tokenResponse, ...data }]: the fields of [data] win. *)
Definition merge_token (st : ClientState) (data : JsVal) : ClientState :=
  set_tokenResponse (Some (own_props data ∪ default ∅ (tokenResponse st))) st.

(** [delete this.state.tokenResponse.refresh_token] *)
Definition delete_refresh_token : Promise unit :=
  st ← get_state;
  match tokenResponse st with
  | Some tr => put_state (set_tokenResponse (Some (delete "refresh_token" tr)) st)
  | None => throw TypeError
  end.

Definition refresh : Promise JsVal :=
  st ← get_state;
  if no_refresh_token st then
    throw (Error "Trying to refresh but there is no refresh token")
  else
    catch
      (res ← send (refresh_options st);
       st ← get_state;
       _ ← put_state (merge_token st (data res));
       resolve (data res))
      (fun error =>
         _ ← match response error with
             | Some r => if status r =? 401 then delete_refresh_token else resolve tt
             | None => resolve tt
             end;
         throw error).

(** ** [Client.request] *)

(** Lines 48-56: the base address and the bearer token are written into the
    options object. *)
Definition authorize (st : ClientState) (options : AxiosRequestConfig)
  : AxiosRequestConfig :=
  let options := <["baseURL" := JStr (replace_slash_end (serverUrl st))]> options in
  let accessToken := getPath (state_obj st) ["tokenResponse"; "access_token"] in
  if truthy accessToken then
    <["headers" :=
        JObj (<["Authorization" := JStr ("Bearer " +:+ toString accessToken)]>
              (own_props (of_lookup (options !! "headers"))))]> options
  else options.

(** [`${o.severity} ${o.code} ${o.diagnostics}`]; [None] is the TypeError of
    reading a property of [null] or [undefined]. *)
Definition issue_text (o : JsVal) : option string :=
  severity ← Js.get o "severity";
  code ← Js.get o "code";
  diagnostics ← Js.get o "diagnostics";
  Some (toString severity +:+ " " +:+ toString code +:+ " " +:+ toString diagnostics).

(** Lines 72-81: an OperationOutcome with issues becomes an [Error] that
    lists them, any other failure is thrown again. *)
Definition operation_outcome {A} (error : JsError) (r : AxiosResponse) : Promise A :=
  let resourceType := getPath (error_obj error) ["response"; "data"; "resourceType"] in
  let issues := getPath (error_obj error) ["response"; "data"; "issue"] in
  let body := data r in
  if loose_eq_text resourceType "OperationOutcome" then
    (* issues.length *)
    match Js.get issues "length" with
    | None => throw TypeError
    | Some len =>
        if truthy len then
          (* body.issue.map(...) *)
          match Js.get body "issue" with
          | Some (JArr l) =>
              match mapM issue_text l with
              | Some errors => throw (Error (String.concat LF errors))
              | None => throw TypeError
              end
          | _ => throw TypeError
          end
        else throw error
    end
  else throw error.

(** Lines 58-87: the handler of the [catch], with the replay
    [this.request(options)] as [replay]. The two nested tests of the source
    fall through to the OperationOutcome code when either fails. *)
Definition on_rejected {A} (replay : Promise A) (error : JsError) : Promise A :=
  match response error with
  | Some r =>
      st ← get_state;
      if (status r =? 401)
         && truthy (getPath (state_obj st) ["tokenResponse"; "refresh_token"])
      then _ ← refresh; replay
      else operation_outcome error r
  | None => throw (Error (getErrorText "no_fhir_response"))
  end.

(** [typeof options == "string"]: a bare URL becomes [{ url: options }]. *)
Definition options_of (arg : RequestArg) : AxiosRequestConfig :=
  match arg with
  | Url u => <["url" := JStr u]> ∅
  | Config options => options
  end.

(** [request] resolves with the response. The source writes into the
    caller's options object; the second component is that object as the
    call leaves it, for the caller that reads it afterwards. *)
Fixpoint request (fuel : nat) (arg : RequestArg)
  : Promise (AxiosResponse * AxiosRequestConfig) :=
  match fuel with
  | O => pending
  | S fuel' =>
      st ← get_state;
      let options := authorize st (options_of arg) in
      catch
        (res ← send options; resolve (res, options))
        (on_rejected (request fuel' (Config options)))
  end.

(** ** [Client.getPages] *)

(** The elements that [result.push.apply(result, entries)] appends. A value
    that is not an object is a TypeError; a plain object is read as an
    array-like through its [length], which this model does not follow. *)
Definition push_apply (result : list JsVal) (entries : JsVal) : Promise (list JsVal) :=
  match entries with
  | JArr l => resolve (result ++ l)%list
  | JUndefined | JNull => resolve result
  | JObj _ => pending
  | _ => throw TypeError
  end.

Fixpoint getPages (fuel : nat) (arg : RequestArg) (maxPages : Z)
    (result : list JsVal) : Promise (list JsVal) :=
  match fuel with
  | O => pending
  | S fuel' =>
      '(res, options) ← request (S fuel') (Config (options_of arg));
      let bundle := data res in
      match Js.get bundle "entry" with
      | None => throw TypeError
      | Some entry =>
          (* result.push.apply(result, bundle.entry || []) *)
          result ← push_apply result (if truthy entry then entry else JArr []);
          (* --maxPages *)
          let maxPages := maxPages - 1 in
          if negb (maxPages =? 0) then
            let nextUrl := getBundleURL bundle "next" in
            if truthy nextUrl then
              getPages fuel' (Config (<["url" := nextUrl]> options)) maxPages result
            else resolve result
          else resolve result
      end
  end.

End Client.

Arguments Machine : clear implicits.
Arguments Promise : clear implicits.

(** ** The words of the specification *)

(** [tokenResponse.k] "is present": the value the client tests. *)
Definition token_field (st : ClientState) (k : string) : JsVal :=
  match tokenResponse st with
  | Some tr => of_lookup (tr !! k)
  | None => JUndefined
  end.

(** [s] without its trailing slashes. *)
Fixpoint strip_slashes (s : string) : string :=
  match s with
  | EmptyString => EmptyString
  | String c s' =>
      match strip_slashes s' with
      | EmptyString => if Ascii.eqb c "/"%char then EmptyString else String c EmptyString
      | r => String c r
      end
  end.

(** The state once [refresh_token] is deleted from the token response. *)
Definition without_refresh_token (st : ClientState) : ClientState :=
  set_tokenResponse (delete "refresh_token" <$> tokenResponse st) st.

(** The error carries a received response of status 401. *)
Definition unauthorized (error : JsError) : bool :=
  match response error with
  | Some r => status r =? 401
  | None => false
  end.

(** The field [k] of the token response, if the response and the field are
    there. *)
Definition token_lookup (st : ClientState) (k : string) : option JsVal :=
  tr ← tokenResponse st; tr !! k.

(** [n] slashes. *)
Fixpoint slashes (n : nat) : string :=
  match n with
  | O => EmptyString
  | S n' => String "/"%char (slashes n')
  end.

(** The number of slashes [s] ends with. *)
Definition trailing_slashes (s : string) : nat :=
  (String.length s - String.length (strip_slashes s))%nat.

(** "[serverUrl] with exactly one trailing slash enforced (collapse or append
    as needed)". *)
Definition spec_base_address (serverUrl : string) : string :=
  strip_slashes serverUrl +:+ "/".


(** The request is a POST, as the refresh-token grant is: the mark by which
    the example servers and the counts of refreshes tell a grant from a
    request for a resource. *)
Definition is_post (options : AxiosRequestConfig) : bool :=
  match options !! "method" with
  | Some (JStr "POST") => true
  | _ => false
  end.

(** The log of [m'] continues the log of [m]. *)
Definition extends {World} (m m' : Machine World) : Prop :=
  exists l, sent m' = (sent m ++ l)%list.

(** ** Servers to run the client against *)

Module Examples.

Definition obj (fields : list (string * JsVal)) : JsVal := JObj (list_to_map fields).

Definition ok (d : JsVal) : Settled AxiosResponse :=
  Fulfilled {| status := 200; data := d; headers := ∅ |}.

Definition failed (code : Z) (d : JsVal) : JsError :=
  AxiosError "Request failed" (Some {| status := code; data := d; headers := ∅ |}).

Definition network_error : JsError := AxiosError "Network Error" None.

(** A transport that answers from a script, whatever it is asked. *)
Definition scripted (_ : AxiosRequestConfig) (w : list (Settled AxiosResponse))
  : Settled AxiosResponse * list (Settled AxiosResponse) :=
  match w with
  | r :: w' => (r, w')
  | [] => (Rejected network_error, [])
  end.

(** A resource server that answers 401 to the next [w] requests and 200
    afterwards, next to a token endpoint that always grants a new token. *)
Definition expiring (options : AxiosRequestConfig) (w : nat)
  : Settled AxiosResponse * nat :=
  if is_post options then (ok (obj [("access_token", JStr "fresh")]), w)
  else
    match w with
    | O => (ok (obj [("resourceType", JStr "Patient")]), O)
    | S w' => (Rejected (failed 401 (JStr "Unauthorized")), w')
    end.

(** Like [expiring], but the resource server never accepts a token. *)
Definition always_401 (options : AxiosRequestConfig) (w : unit)
  : Settled AxiosResponse * unit :=
  if is_post options then (ok (obj [("access_token", JStr "fresh")]), w)
  else (Rejected (failed 401 (JStr "Unauthorized")), w).

Definition bundle (entries : list JsVal) (next : option string) : JsVal :=
  obj ([("resourceType", JStr "Bundle"); ("entry", JArr entries)] ++
       match next with
       | Some u => [("link", JArr [obj [("relation", JStr "self"); ("url", JStr "here")];
                                   obj [("relation", JStr "next"); ("url", JStr u)]])]
       | None => []
       end)%list.

Definition page1 : list JsVal := [JStr "a"; JStr "b"].
Definition page2 : list JsVal := [JStr "c"].
Definition page3 : list JsVal := [JStr "d"; JStr "e"].

(** A server of bundles by URL: [site] finds the bundle of a URL. *)
Definition static (site : string -> option JsVal) (options : AxiosRequestConfig)
    (w : unit) : Settled AxiosResponse * unit :=
  (match options !! "url" with
   | Some (JStr u) =>
       match site u with
       | Some b => ok b
       | None => Rejected (failed 404 (JStr "Not Found"))
       end
   | _ => Rejected (failed 404 (JStr "Not Found"))
   end, w).

(** Three linked pages: page1, page2, page3, no next. *)
Definition three_pages_site (u : string) : option JsVal :=
  if String.eqb u "page1" then Some (bundle page1 (Some "page2"))
  else if String.eqb u "page2" then Some (bundle page2 (Some "page3"))
  else if String.eqb u "page3" then Some (bundle page3 None)
  else None.

Definition three_pages := static three_pages_site.

Definition errorText (key : string) : string := "No response received from the server".

Definition stringify (fields : list (string * JsVal)) : string :=
  String.concat "&" (List.map (fun '(k, v) => k +:+ "=" +:+ toString v) fields).

Definition authorized : ClientState :=
  {| serverUrl := "http://fhir.example/r4";
     tokenUri := Some "http://fhir.example/token";
     authorizeUri := Some "http://fhir.example/authorize";
     scope := "launch openid";
     tokenResponse :=
       Some (list_to_map [("access_token", JStr "stale");
                          ("refresh_token", JStr "renew");
                          ("patient", JStr "p1")]) |}.

(** The same state once the refresh token is gone. *)
Definition expired : ClientState :=
  set_tokenResponse
    (Some (list_to_map [("access_token", JStr "stale"); ("patient", JStr "p1")]))
    authorized.

Definition boot {World} (st : ClientState) (w : World) : Machine World :=
  {| state := st; world := w; sent := [] |}.




(** The token endpoint turns the refresh token down. *)
Definition invalid_grant : JsError :=
  failed 401 (obj [("error", JStr "invalid_grant")]).

(** What the token endpoint grants. *)
Definition granted : JsVal :=
  obj [("access_token", JStr "fresh"); ("expires_in", JNum 3600)].

(** A state whose server address ends with two slashes. *)
Definition two_slashes : ClientState :=
  {| serverUrl := "http://fhir.example//";
     tokenUri := None; authorizeUri := None; scope := "";
     tokenResponse := None |}.


End Examples.

(** [pages] are the URLs and entries of bundles that [site] serves, each
    linked to the next and the last one without a next link. *)
Inductive linked (site : string -> option JsVal)
  : list (string * list JsVal) -> Prop :=
| linked_last u entries :
    site u = Some (Examples.bundle entries None) ->
    linked site [(u, entries)]
| linked_next u entries u' entries' pages :
    site u = Some (Examples.bundle entries (Some u')) ->
    u' <> "" ->
    linked site ((u', entries') :: pages) ->
    linked site ((u, entries) :: (u', entries') :: pages).

(** The number of pages that a walk capped by [maxPages] fetches out of
    [n] linked pages, as the code counts. *)
Definition pages_fetched (maxPages : Z) (n : nat) : nat :=
  if 1 <=? maxPages then Nat.min (Z.to_nat maxPages) n else n.

(** The URL of the first page. *)
Definition first_url (pages : list (string * list JsVal)) : string :=
  match pages with
  | (u, _) :: _ => u
  | [] => ""
  end.

(** The entries of the first [k] pages, in order. *)
Definition entries_of (k : nat) (pages : list (string * list JsVal)) : list JsVal :=
  concat (snd <$> take k pages).

(** ** The constructor and the accessors of the client *)

(** How a synchronous call completes. *)
Inductive Completion (A : Type) :=
| Returned (a : A)
| Thrown (e : JsError).
Arguments Returned {A} a.
Arguments Thrown {A} e.

(** [new Client(state)]: a missing state is refused. *)
Definition new_Client (state : option ClientState) : Completion ClientState :=
  match state with
  | None => Thrown (Error "No state provided to the client")
  | Some st => Returned st
  end.

(** *** The regular expressions of the scope tests *)

(** The patterns of the source: characters, sequence, an optional group and
    the word boundary. *)
Inductive Regex :=
| Lit (c : ascii)
| Cat (r1 r2 : Regex)
| Opt (r : Regex)
| WordBoundary
| Empty.

(** A word character, [[A-Za-z0-9_]]. *)
Definition is_word (c : ascii) : bool :=
  let n := nat_of_ascii c in
  ((48 <=? n) && (n <=? 57) || (65 <=? n) && (n <=? 90) ||
   (97 <=? n) && (n <=? 122) || (n =? 95))%nat.

Definition word_before (prev : option ascii) : bool :=
  match prev with
  | Some c => is_word c
  | None => false
  end.

Definition word_after (s : string) : bool :=
  match s with
  | String c _ => is_word c
  | EmptyString => false
  end.

(** [r] matches a prefix of [s], which follows the character [prev], and
    [k] accepts what comes after the match. Every way to match is tried. *)
Fixpoint accepts (r : Regex) (prev : option ascii) (s : string)
    (k : option ascii -> string -> bool) : bool :=
  match r with
  | Lit c =>
      match s with
      | String d s' => Ascii.eqb c d && k (Some d) s'
      | EmptyString => false
      end
  | Cat r1 r2 => accepts r1 prev s (fun prev' s' => accepts r2 prev' s' k)
  | Opt r' => accepts r' prev s k || k prev s
  | WordBoundary => xorb (word_before prev) (word_after s) && k prev s
  | Empty => k prev s
  end.

(** The pattern tried at every position of [s] from the left. *)
Fixpoint search (r : Regex) (prev : option ascii) (s : string) : bool :=
  accepts r prev s (fun _ _ => true) ||
  match s with
  | String c s' => search r (Some c) s'
  | EmptyString => false
  end.

(** [s.match(r)] is not [null]. *)
Definition matches (s : string) (r : Regex) : bool := search r None s.

(** The characters of a literal text in sequence. *)
Fixpoint lits (w : string) : Regex :=
  match w with
  | EmptyString => Empty
  | String c w' => Cat (Lit c) (lits w')
  end.

(** [/\blaunch(\/patient)?\b/] *)
Definition launch_patient_re : Regex :=
  Cat WordBoundary (Cat (lits "launch") (Cat (Opt (lits "/patient")) WordBoundary)).

(** [/\blaunch(\/encounter)?\b/] *)
Definition launch_encounter_re : Regex :=
  Cat WordBoundary (Cat (lits "launch") (Cat (Opt (lits "/encounter")) WordBoundary)).

(** [/\bopenid\b/] *)
Definition openid_re : Regex := Cat WordBoundary (Cat (lits "openid") WordBoundary).

(** [/\bconnect\b/] *)
Definition connect_re : Regex := Cat WordBoundary (Cat (lits "connect") WordBoundary).

(** *** [String.prototype.split] *)

(** [s.split(sep)] for a separator of one character. *)
Fixpoint split (sep : ascii) (s : string) : list string :=
  match s with
  | EmptyString => [EmptyString]
  | String c s' =>
      if Ascii.eqb c sep then EmptyString :: split sep s'
      else
        match split sep s' with
        | piece :: pieces => String c piece :: pieces
        | [] => [String c EmptyString]
        end
  end.

(** [a[i]] on an array of strings. *)
Definition index (pieces : list string) (i : nat) : JsVal :=
  of_lookup (JStr <$> pieces !! i).

(** *** The accessors *)

(** The names that every object inherits from [Object.prototype]: a read
    [o[k]] of one of them that [o] does not define itself yields the
    inherited member. *)
Definition inherited (k : string) : bool :=
  bool_decide (k ∈ ["constructor"; "__defineGetter__"; "__defineSetter__";
                    "hasOwnProperty"; "__lookupGetter__"; "__lookupSetter__";
                    "isPrototypeOf"; "propertyIsEnumerable"; "toString";
                    "valueOf"; "__proto__"; "toLocaleString"]).

(** What a read [o[k]] of an object yields: a value of its own, or the
    member [k] of [Object.prototype], which is a function, or for
    ["__proto__"] the prototype itself, and so truthy. *)
Inductive Member :=
| Own (v : JsVal)
| Inherited (k : string).

Section Accessors.

(** [jwt.decode] of the jsonwebtoken package: the payload of a token, or
    [null]. *)
Variable jwt_decode : JsVal -> JsVal.

(** An accessor returns its value next to the messages it hands to [debug],
    in order. *)
Definition Diagnosed (A : Type) : Type := A * list string.

(** [this.state.authorizeUri] is truthy. *)
Definition has_authorizeUri (st : ClientState) : bool :=
  truthy (opt_str (authorizeUri st)).

Definition getPatientId (st : ClientState) : Diagnosed JsVal :=
  match tokenResponse st with
  | Some tokenResponse =>
      let patient := of_lookup (tokenResponse !! "patient") in
      if negb (truthy patient) then
        if negb (matches (scope st) launch_patient_re) then
          (JNull,
           ["You are trying to get the ID of the selected patient " +:+
            "but you have not used the right scopes. Please add " +:+
            "'launch/patient' to the scopes you request and try again."])
        else
          (JNull,
           ["The ID of the selected patient is not available. " +:+
            "Please check if your server supports that."])
      else (patient, [])
  | None =>
      if has_authorizeUri st then
        (JNull,
         ["You are trying to get the ID of the selected patient " +:+
          "but your app is not authorized yet."])
      else
        (JNull,
         ["You are trying to get the ID of the selected patient " +:+
          "but your app needs to be authorized first. Please don't use " +:+
          "open fhir servers if you need to access launch context items " +:+
          "like the selected patient."])
  end.

Definition getEncounterId (st : ClientState) : Diagnosed JsVal :=
  match tokenResponse st with
  | Some tokenResponse =>
      let encounter := of_lookup (tokenResponse !! "encounter") in
      if negb (truthy encounter) then
        if negb (matches (scope st) launch_encounter_re) then
          (JNull,
           ["You are trying to get the ID of the selected encounter " +:+
            "but you have not used the right scopes. Please add " +:+
            "'launch/encounter' to the scopes you request and try again."])
        else
          (JNull,
           ["The ID of the selected encounter is not available. " +:+
            "Please check if your server supports that, and that " +:+
            "the selected patient has any recorded encounters."])
      else (encounter, [])
  | None =>
      if has_authorizeUri st then
        (JNull,
         ["You are trying to get the ID of the selected encounter " +:+
          "but your app is not authorized yet."])
      else
        (JNull,
         ["You are trying to get the ID of the selected encounter " +:+
          "but your app needs to be authorized first. Please don't use " +:+
          "open fhir servers if you need to access launch context items " +:+
          "like the selected encounter."])
  end.

Definition getIdToken (st : ClientState) : Diagnosed JsVal :=
  match tokenResponse st with
  | Some tokenResponse =>
      let idToken := of_lookup (tokenResponse !! "id_token") in
      if negb (truthy idToken) then
        if negb (matches (scope st) openid_re) || negb (matches (scope st) connect_re)
        then
          (JNull,
           ["You are trying to get the id_token but you are not " +:+
            "using the right scopes. Please add 'openid' and 'connect' " +:+
            "to the scopes you request and try again."])
        else
          (JNull,
           ["The id_token is not available. Please check if your " +:+
            "server supports that."])
      else (jwt_decode idToken, [])
  | None =>
      if has_authorizeUri st then
        (JNull,
         ["You are trying to get the id_token " +:+
          "but your app is not authorized yet."])
      else
        (JNull,
         ["You are trying to get the id_token but your app needs to be " +:+
          "authorized first. Please don't use open fhir servers if you " +:+
          "need to access launch context items like the id_token."])
  end.

(** [idToken.profile] is read from a truthy value, which never throws. *)
Definition getUserProfile (st : ClientState) : Diagnosed JsVal :=
  let '(idToken, log) := getIdToken st in
  if truthy idToken then (of_lookup (Js.get idToken "profile"), log)
  else (JNull, log).

(** [profile.split("/")[i]]: only a string has [split]. *)
Definition split_profile (profile : JsVal) (i : nat) : Completion JsVal :=
  match profile with
  | JStr s => Returned (index (split "/" s) i)
  | _ => Thrown TypeError
  end.

Definition getUserId (st : ClientState) : Diagnosed (Completion JsVal) :=
  let '(profile, log) := getUserProfile st in
  if truthy profile then (split_profile profile 1, log)
  else (Returned JNull, log).

Definition getUserType (st : ClientState) : Diagnosed (Completion JsVal) :=
  let '(profile, log) := getUserProfile st in
  if truthy profile then (split_profile profile 0, log)
  else (Returned JNull, log).

(** [getTokenField(field)]. The token response is an object literal or a
    parsed JSON object, so what it does not define itself it reads from
    [Object.prototype]. *)
Definition getTokenField (field : string) (st : ClientState)
  : Diagnosed Member :=
  match tokenResponse st with
  | Some tokenResponse =>
      match tokenResponse !! field with
      | None =>
          if inherited field then (Inherited field, [])
          else
            (Own JNull,
             [("The field " +:+ field +:+
               " is not available in the token response. ") +:+
              "Please check if your server supports that."])
      | Some value =>
          if negb (truthy value) then
            (Own JNull,
             [("The field " +:+ field +:+
               " is not available in the token response. ") +:+
              "Please check if your server supports that."])
          else (Own value, [])
      end
  | None =>
      if has_authorizeUri st then
        (Own JNull,
         [("You are trying to get the field " +:+ field +:+ " ") +:+
          "but your app is not authorized yet."])
      else
        (Own JNull,
         [("You are trying to get the field " +:+ field +:+ " ") +:+
          "but your app needs to be authorized first."])
  end.

Definition getToken (st : ClientState) : option (gmap string JsVal) :=
  tokenResponse st.

End Accessors.

(** ** Words for the properties of the accessors *)

(** [/\blaunch\b/]: the whole word "launch". *)
Definition launch_re : Regex := Cat WordBoundary (Cat (lits "launch") WordBoundary).

(** [s] without its prefix [w], if it starts with [w]. *)
Fixpoint strip_prefix (w s : string) : option string :=
  match w, s with
  | EmptyString, _ => Some s
  | String c w', String d s' => if Ascii.eqb c d then strip_prefix w' s' else None
  | String _ _, EmptyString => None
  end.

(** The character before the position that follows [w], itself after
    [prev]. *)
Fixpoint last_char (w : string) (prev : option ascii) : option ascii :=
  match w with
  | EmptyString => prev
  | String c w' => last_char w' (Some c)
  end.

(** [s] has no slash. *)
Fixpoint slash_free (s : string) : bool :=
  match s with
  | EmptyString => true
  | String c s' => negb (Ascii.eqb c "/"%char) && slash_free s'
  end.

(** [st'] is [st] but for its token response, which is still there if it
    was. *)
Definition same_session (st st' : ClientState) : Prop :=
  serverUrl st' = serverUrl st /\
  tokenUri st' = tokenUri st /\
  authorizeUri st' = authorizeUri st /\
  scope st' = scope st /\
  (is_Some (tokenResponse st) -> is_Some (tokenResponse st')).

(** The answer of a field accessor for the field [k]: [null] with one
    message when the token response holds nothing truthy there, the value
    without a message otherwise. *)
Definition answers (st : ClientState) (k : string) (r : JsVal * list string) : Prop :=
  (truthy (token_field st k) = false /\ r.1 = JNull /\ length r.2 = 1%nat) \/
  (truthy (token_field st k) = true /\ r.1 = token_field st k /\ r.2 = []).

(** The read [tokenResponse[k]] goes to [Object.prototype]: there is a
    token response, it does not define [k] itself, and [k] is one of the
    inherited names. *)
Definition from_prototype (st : ClientState) (k : string) : bool :=
  match tokenResponse st with
  | Some tr => inherited k && bool_decide (tr !! k = None)
  | None => false
  end.

(** The segments that follow the second one in a profile, if any. *)
Definition more_segments (tail : option string) : string :=
  match tail with
  | Some t => "/" +:+ t
  | None => ""
  end.

(** The request for one page: the caller's options with the URL of the
    page, authorized. *)
Definition page_request (st : ClientState) (options : AxiosRequestConfig)
    (page : string * list JsVal) : AxiosRequestConfig :=
  authorize st (<["url" := JStr page.1]> options).

(** Linked pages, of which the last links to a URL that [site] does not
    serve. *)
Inductive dangling (site : string -> option JsVal)
  : list (string * list JsVal) -> Prop :=
| dangling_last u entries u' :
    site u = Some (Examples.bundle entries (Some u')) ->
    u' <> "" ->
    site u' = None ->
    dangling site [(u, entries)]
| dangling_next u entries u' entries' pages :
    site u = Some (Examples.bundle entries (Some u')) ->
    u' <> "" ->
    dangling site ((u', entries') :: pages) ->
    dangling site ((u, entries) :: (u', entries') :: pages).

(** What [Examples.static] answers for a URL it does not serve. *)
Definition not_found : JsError := Examples.failed 404 (JStr "Not Found").

(** ** More servers and states to run the client against *)

Module Samples.

(** A decoder that knows one identity token. *)
Definition decode (token : JsVal) : JsVal :=
  match token with
  | JStr "id.token" =>
      Examples.obj [("sub", JStr "123"); ("profile", JStr "Practitioner/123")]
  | _ => JNull
  end.

(** An authorized state with an identity token and a patient, but no
    encounter. *)
Definition signed_in : ClientState :=
  set_tokenResponse
    (Some (list_to_map [("access_token", JStr "stale");
                        ("refresh_token", JStr "renew");
                        ("id_token", JStr "id.token");
                        ("patient", JStr "p1")]))
    Examples.authorized.

Definition with_scope (scope : string) (st : ClientState) : ClientState :=
  {| serverUrl := serverUrl st; tokenUri := tokenUri st;
     authorizeUri := authorizeUri st; scope := scope;
     tokenResponse := tokenResponse st |}.

(** What the token endpoint grants when it rotates the refresh token. *)
Definition rotated : JsVal :=
  Examples.obj [("access_token", JStr "fresh"); ("refresh_token", JStr "next")].

(** Two linked pages, the second of which links to a page that is not
    there. *)
Definition broken_site (u : string) : option JsVal :=
  if String.eqb u "page1" then Some (Examples.bundle Examples.page1 (Some "page2"))
  else if String.eqb u "page2" then Some (Examples.bundle Examples.page2 (Some "gone"))
  else None.

(** Options for the first page with a method and a header of the caller. *)
Definition with_headers_page1 : gmap string JsVal :=
  list_to_map [("url", JStr "page1"); ("method", JStr "GET");
               ("headers", Examples.obj [("Accept", JStr "application/json")])].

(** The state after the token endpoint of [Examples.expiring] has granted
    its token, and the request that the call for "Patient/1" replays then. *)
Definition renewed : ClientState :=
  merge_token Examples.authorized (Examples.obj [("access_token", JStr "fresh")]).

Definition replayed : AxiosRequestConfig :=
  authorize renewed (authorize Examples.authorized (options_of (Url "Patient/1"))).

Definition three : list (string * list JsVal) :=
  [("page1", Examples.page1); ("page2", Examples.page2); ("page3", Examples.page3)].

End Samples.

(** [s] has [w] as a whole word: an occurrence of [w] with no word character
    right before it and none right after it. *)
Definition whole_word (w s : string) : Prop :=
  exists pre post,
    s = pre +:+ w +:+ post /\
    word_before (last_char pre None) = false /\
    word_after post = false.

(** [/\bw\b/] *)
Definition word_re (w : string) : Regex :=
  Cat WordBoundary (Cat (lits w) WordBoundary).

(** ** The rounds of a call *)

(** [rounds axios stringify m options rs m' options']: a call of [request]
    that starts at the machine [m] with the options object [options] goes
    through the rounds [rs] and then stands at the machine [m'] with the
    options object [options'], about to send. A round is a request that is
    answered with a 401 while a refresh token is at hand, and the one
    refresh after it, which is answered with a grant; [rs] lists, for each
    round, the state in which its request was sent and the request. *)
Inductive rounds {World : Type}
    (axios : AxiosRequestConfig -> World -> Settled AxiosResponse * World)
    (querystring_stringify : list (string * JsVal) -> string)
  : Machine World -> AxiosRequestConfig ->
    list (ClientState * AxiosRequestConfig) ->
    Machine World -> AxiosRequestConfig -> Prop :=
| rounds_done m options :
    rounds axios querystring_stringify m options [] m options
| rounds_more m options error r w1 res w2 rs m' options' :
    axios (authorize (state m) options) (world m) = (Rejected error, w1) ->
    response error = Some r ->
    status r = 401 ->
    truthy (token_field (state m) "refresh_token") = true ->
    axios (refresh_options querystring_stringify (state m)) w1 = (Fulfilled res, w2) ->
    rounds axios querystring_stringify
      {| state := merge_token (state m) (data res); world := w2;
         sent := (sent m ++ [authorize (state m) options;
                             refresh_options querystring_stringify (state m)])%list |}
      (authorize (state m) options) rs m' options' ->
    rounds axios querystring_stringify m options
      ((state m, authorize (state m) options) :: rs) m' options'.

(** What the rounds [rs] hand to the transport: each request and the
    refresh after it. *)
Definition round_log (querystring_stringify : list (string * JsVal) -> string)
    (rs : list (ClientState * AxiosRequestConfig)) : list AxiosRequestConfig :=
  flat_map (fun sr => [sr.2; refresh_options querystring_stringify sr.1]) rs.



(** ** Answers off the usual path *)

Module Corner.





End Corner.

(** ** Proof steps *)

(** Unfolds the promise combinators of one run. *)
Ltac run :=
  unfold refresh, on_rejected, delete_refresh_token,
    mbind, promise_bind, mret, promise_ret,
    then_, catch, get_state, put_state, send, resolve, throw, pending.

(** Unfolds one call of [request] up to its handler. *)
Ltac step_request :=
  cbn [request];
  unfold mbind, promise_bind, then_, catch, get_state, send, resolve.

(** Unfolds the request of the refresh grant. *)
Ltac unfold_refresh_options := unfold refresh_options.

(** Unfolds one call of [getPages] up to its call of [request]. *)
Ltac step_getPages :=
  cbn [getPages];
  unfold mbind, promise_bind, then_ at 1;
  unfold throw, resolve.

(** ** Numbers in template literals *)

(** Integers print in full up to 21 digits, with the digits that are needed
    to read the double back and zeros after them, and with an exponent from
    [1e+21] on. *)
Lemma toString_numbers :
  toString (JNum 0) = "0" /\
  toString (JNum 3600) = "3600" /\
  toString (JNum (-42)) = "-42" /\
  toString (JNum (2 ^ 53 + 1)) = "9007199254740992" /\
  toString (JNum (2 ^ 60)) = "1152921504606847000" /\
  toString (JNum (10 ^ 21 - 1)) = "1e+21" /\
  toString (JNum (10 ^ 21)) = "1e+21" /\
  toString (JNum (- 10 ^ 21)) = "-1e+21" /\
  toString (JNum (2 ^ 70)) = "1.1805916207174113e+21" /\
  toString (JNum 123456789012345678901234567890) = "1.2345678901234568e+29" /\
  toString (JNum (10 ^ 23)) = "1e+23" /\
  toString (JNum (10 ^ 309)) = "Infinity" /\
  toString (JArr [JNum (10 ^ 21); JNull; JStr "a"]) = "1e+21,,a".
Proof. vm_compute. repeat split. Qed.

(** ** Reading the state and the error *)

Lemma getPath_token_field (st : ClientState) (k : string) :
  getPath (state_obj st) ["tokenResponse"; k] = token_field st k.
Proof.
  unfold getPath, state_obj, token_field. cbn [fold_left truthy Js.get].
  rewrite !lookup_insert_ne by done.
  destruct (tokenUri st), (authorizeUri st), (tokenResponse st) as [tr|];
    cbn [opt_field fmap option_fmap option_map];
    rewrite ?lookup_insert_ne by done; rewrite ?lookup_insert_eq, ?lookup_empty;
    reflexivity.
Qed.


(** ** The base address *)

Lemma replace_slash_end_cases (s : string) :
  replace_slash_end s = if ends_with_slash s then s else s +:+ "/".
Proof.
  induction s as [|c s IH]; [reflexivity|].
  destruct s as [|c' s'].
  - cbn. destruct (Ascii.eqb_spec c "/"%char) as [->|]; reflexivity.
  - change (replace_slash_end (String c (String c' s')))
      with (String c (replace_slash_end (String c' s'))).
    rewrite IH.
    change (ends_with_slash (String c (String c' s')))
      with (ends_with_slash (String c' s')).
    by destruct (ends_with_slash (String c' s')).
Qed.

Lemma ends_with_slash_app (s : string) : ends_with_slash (s +:+ "/") = true.
Proof.
  induction s as [|c s IH]; [reflexivity|].
  destruct s; [reflexivity|]. exact IH.
Qed.

Lemma strip_slashes_split (s : string) :
  exists n, s = strip_slashes s +:+ slashes n.
Proof.
  induction s as [|c s [n IH]]; [by exists 0%nat|].
  cbn [strip_slashes]. destruct (strip_slashes s) as [|a r] eqn:E.
  - destruct (Ascii.eqb_spec c "/"%char) as [->|].
    + exists (S n). cbn. by rewrite IH at 1.
    + exists n. cbn. by rewrite IH at 1.
  - exists n. cbn. by rewrite IH at 1.
Qed.

Lemma ends_with_slash_strip (s : string) : ends_with_slash (strip_slashes s) = false.
Proof.
  induction s as [|c s IH]; [reflexivity|].
  cbn [strip_slashes]. destruct (strip_slashes s) as [|a r] eqn:E.
  - destruct (Ascii.eqb_spec c "/"%char) as [->|Hc]; [reflexivity|].
    cbn. by apply Ascii.eqb_neq.
  - exact IH.
Qed.

Lemma append_cons (c : ascii) (s t : string) :
  String c s +:+ t = String c (s +:+ t).
Proof. reflexivity. Qed.

Lemma length_append (s t : string) :
  String.length (s +:+ t) = (String.length s + String.length t)%nat.
Proof.
  induction s as [|c s IH]; [reflexivity|].
  rewrite append_cons. cbn [String.length]. by rewrite IH.
Qed.

Lemma length_slashes (n : nat) : String.length (slashes n) = n.
Proof. induction n as [|n IH]; cbn; [reflexivity | by rewrite IH]. Qed.

Lemma trailing_slashes_split (s : string) :
  s = strip_slashes s +:+ slashes (trailing_slashes s).
Proof.
  destruct (strip_slashes_split s) as [n Hn]. unfold trailing_slashes.
  pose proof (f_equal String.length Hn) as Hl.
  rewrite length_append, length_slashes in Hl. rewrite Hl.
  replace (String.length (strip_slashes s) + n - String.length (strip_slashes s))%nat
    with n by lia.
  exact Hn.
Qed.

Lemma append_empty_r (s : string) : s +:+ "" = s.
Proof.
  induction s as [|c s IH]; [reflexivity|]. by rewrite append_cons, IH.
Qed.

Lemma replace_slash_end_spec (s : string) :
  (trailing_slashes s <= 1)%nat -> replace_slash_end s = spec_base_address s.
Proof.
  intros Hle. rewrite replace_slash_end_cases. unfold spec_base_address.
  pose proof (trailing_slashes_split s) as Hs.
  destruct (trailing_slashes s) as [|[|n]]; [| |lia]; cbn [slashes] in Hs.
  - rewrite append_empty_r in Hs. rewrite <- Hs.
    pose proof (ends_with_slash_strip s) as Hf. rewrite <- Hs in Hf. by rewrite Hf.
  - rewrite <- Hs. rewrite Hs at 1. by rewrite ends_with_slash_app.
Qed.

(** ** Runs of the client *)

Section Properties.

Context {World : Type}.
Variable axios : AxiosRequestConfig -> World -> Settled AxiosResponse * World.
Variable getErrorText : string -> string.
Variable querystring_stringify : list (string * JsVal) -> string.

#[local] Abbreviation refresh_options := (refresh_options querystring_stringify).
#[local] Abbreviation refresh := (refresh axios querystring_stringify).
#[local] Abbreviation request := (request axios getErrorText querystring_stringify).
#[local] Abbreviation getPages := (getPages axios getErrorText querystring_stringify).

Implicit Types (m : Machine World) (st : ClientState) (error : JsError).

Lemma no_refresh_token_field st :
  no_refresh_token st = negb (truthy (token_field st "refresh_token")).
Proof. unfold no_refresh_token, token_field. by destruct (tokenResponse st). Qed.

(** A refresh without a refresh token fails on the spot. *)
Lemma refresh_without_token m :
  no_refresh_token (state m) = true ->
  refresh m =
  (Some (Rejected (Error "Trying to refresh but there is no refresh token")), m).
Proof. intros H. run. by rewrite H. Qed.

(** A refresh with a refresh token is one call of the transport. *)
Lemma refresh_with_token m :
  no_refresh_token (state m) = false ->
  refresh m =
  match axios (refresh_options (state m)) (world m) with
  | (Fulfilled res, w) =>
      (Some (Fulfilled (data res)),
       {| state := merge_token (state m) (data res); world := w;
          sent := (sent m ++ [refresh_options (state m)])%list |})
  | (Rejected error, w) =>
      (Some (Rejected error),
       {| state := if unauthorized error then without_refresh_token (state m)
                   else state m;
          world := w;
          sent := (sent m ++ [refresh_options (state m)])%list |})
  end.
Proof.
  intros H. run. rewrite H.
  destruct (axios _ _) as [[res|error] w]; [reflexivity|].
  unfold unauthorized, without_refresh_token, after_send; cbn [state world sent].
  unfold no_refresh_token in H.
  destruct (tokenResponse (state m)) as [tr|] eqn:Htr; [|discriminate].
  destruct (response error) as [r|]; [|reflexivity].
  destruct (status r =? 401); [|reflexivity].
  cbn. by rewrite Htr.
Qed.

(** The handler of [request], case by case. *)
Lemma on_rejected_no_response {A} (replay : Promise World A) error m :
  response error = None ->
  on_rejected axios getErrorText querystring_stringify replay error m =
  (Some (Rejected (Error (getErrorText "no_fhir_response"))), m).
Proof. intros H. run. by rewrite H. Qed.

Lemma on_rejected_refresh {A} (replay : Promise World A) error r m :
  response error = Some r ->
  status r = 401 ->
  truthy (token_field (state m) "refresh_token") = true ->
  on_rejected axios getErrorText querystring_stringify replay error m =
  then_ refresh (fun _ => replay) m.
Proof.
  intros Hr Hs Ht. unfold on_rejected. rewrite Hr.
  unfold mbind, promise_bind, then_ at 1, get_state.
  by rewrite getPath_token_field, Hs, Ht.
Qed.

Lemma on_rejected_other {A} (replay : Promise World A) error r m :
  response error = Some r ->
  (status r =? 401) && truthy (token_field (state m) "refresh_token") = false ->
  on_rejected axios getErrorText querystring_stringify replay error m =
  operation_outcome error r m.
Proof.
  intros Hr Hs. unfold on_rejected. rewrite Hr.
  unfold mbind, promise_bind, then_ at 1, get_state.
  by rewrite getPath_token_field, Hs.
Qed.

(** One call of [request]: the options go to the transport once; a
    rejection goes to the handler. *)
Lemma request_S fuel arg m :
  request (S fuel) arg m =
  let options := authorize (state m) (options_of arg) in
  match axios options (world m) with
  | (Fulfilled res, w) => (Some (Fulfilled (res, options)), after_send options w m)
  | (Rejected error, w) =>
      on_rejected axios getErrorText querystring_stringify
        (request fuel (Config options)) error (after_send options w m)
  end.
Proof.
  step_request. by destruct (axios _ _) as [[res|error] w].
Qed.

(** [operation_outcome] rejects and leaves the machine alone. *)
Lemma operation_outcome_rejects {A} error r m :
  exists error', @operation_outcome World A error r m = (Some (Rejected error'), m).
Proof.
  unfold operation_outcome, throw.
  repeat case_match; eauto.
Qed.

(** A received 401 with a refresh token at hand: one refresh, then the
    replay of the same options; a failed refresh ends the call. *)
Lemma request_refresh_replay fuel arg m error r w1 :
  let options := authorize (state m) (options_of arg) in
  let grant := refresh_options (state m) in
  axios options (world m) = (Rejected error, w1) ->
  response error = Some r ->
  status r = 401 ->
  truthy (token_field (state m) "refresh_token") = true ->
  request (S fuel) arg m =
  match axios grant w1 with
  | (Fulfilled res, w2) =>
      request fuel (Config options)
        {| state := merge_token (state m) (data res); world := w2;
           sent := (sent m ++ [options; grant])%list |}
  | (Rejected error', w2) =>
      (Some (Rejected error'),
       {| state := if unauthorized error' then without_refresh_token (state m)
                   else state m;
          world := w2; sent := (sent m ++ [options; grant])%list |})
  end.
Proof.
  intros options grant Hsend Hr Hs Ht.
  rewrite request_S. fold options. cbv zeta. rewrite Hsend.
  rewrite (on_rejected_refresh _ _ r) by done.
  unfold then_. rewrite refresh_with_token
    by (cbn [after_send state]; by rewrite no_refresh_token_field, Ht).
  cbn [after_send state world sent]. fold grant.
  destruct (axios grant w1) as [[res|error'] w2]; by rewrite <- app_assoc.
Qed.

Lemma extends_refl m : extends m m.
Proof. exists []. by rewrite app_nil_r. Qed.

Lemma extends_trans m1 m2 m3 : extends m1 m2 -> extends m2 m3 -> extends m1 m3.
Proof. intros [l1 H1] [l2 H2]. exists (l1 ++ l2)%list. by rewrite H2, H1, app_assoc. Qed.

Lemma extends_after_send options w m : extends m (after_send options w m).
Proof. by exists [options]. Qed.

Lemma refresh_extends m : extends m (refresh m).2.
Proof.
  destruct (no_refresh_token (state m)) eqn:H.
  - rewrite refresh_without_token by done. apply extends_refl.
  - rewrite refresh_with_token by done.
    destruct (axios _ _) as [[res|error] w]; by eexists.
Qed.

Lemma on_rejected_extends {A} (replay : Promise World A) error m :
  (forall m1, extends m1 (replay m1).2) ->
  extends m (on_rejected axios getErrorText querystring_stringify replay error m).2.
Proof.
  intros Hreplay. destruct (response error) as [r|] eqn:Hr.
  - destruct ((status r =? 401) && truthy (token_field (state m) "refresh_token"))
      eqn:Hc.
    + apply andb_prop in Hc as [Hs%Z.eqb_eq Ht].
      rewrite (on_rejected_refresh _ _ r) by done. unfold then_.
      pose proof (refresh_extends m) as Hm.
      destruct (refresh m) as [[[a|e]|] m1]; cbn [snd] in *; try done.
      eapply extends_trans; [exact Hm | apply Hreplay].
    + rewrite (on_rejected_other _ _ r) by done.
      destruct (operation_outcome_rejects (A:=A) error r m) as [e ->].
      apply extends_refl.
  - rewrite on_rejected_no_response by done. apply extends_refl.
Qed.

Lemma request_extends fuel arg m : extends m (request fuel arg m).2.
Proof.
  revert arg m. induction fuel as [|fuel IH]; intros arg m; [apply extends_refl|].
  rewrite request_S. cbv zeta.
  destruct (axios _ _) as [[res|error] w]; [apply extends_after_send|].
  eapply extends_trans; [apply extends_after_send|].
  apply on_rejected_extends. intros m1. apply IH.
Qed.

(** The first request of a call is the caller's options, authorized. *)
Lemma request_sends_first fuel arg m :
  exists rest,
    sent (request (S fuel) arg m).2 =
    (sent m ++ authorize (state m) (options_of arg) :: rest)%list.
Proof.
  rewrite request_S. cbv zeta.
  destruct (axios _ _) as [[res|error] w]; [by exists []|].
  destruct (on_rejected_extends (request fuel (Config (authorize (state m) (options_of arg))))
              error (after_send (authorize (state m) (options_of arg)) w m)
              (fun m1 => request_extends fuel _ m1)) as [l Hl].
  exists l. rewrite Hl. cbn [after_send sent]. by rewrite <- app_assoc.
Qed.

(** A call that settles settles the same way with more fuel. *)
Lemma on_rejected_more_fuel {A} (replay replay' : Promise World A) error m r m' :
  (forall m1 r1 m2, replay m1 = (Some r1, m2) -> replay' m1 = (Some r1, m2)) ->
  on_rejected axios getErrorText querystring_stringify replay error m = (Some r, m') ->
  on_rejected axios getErrorText querystring_stringify replay' error m = (Some r, m').
Proof.
  intros Hreplay. unfold on_rejected.
  destruct (response error) as [resp|]; [|done].
  unfold mbind, promise_bind, then_ at 1 3, get_state.
  destruct (_ && _); [|done]. unfold then_.
  destruct (refresh m) as [[[a|e]|] m1]; [apply Hreplay|done|done].
Qed.

Lemma request_more_fuel fuel arg m r m' :
  request fuel arg m = (Some r, m') -> request (S fuel) arg m = (Some r, m').
Proof.
  revert arg m r m'. induction fuel as [|fuel IH]; intros arg m r m'; [done|].
  rewrite (request_S (S fuel)), (request_S fuel). cbv zeta.
  destruct (axios _ _) as [[res|error] w]; [done|].
  apply on_rejected_more_fuel. intros m1 r1 m2. apply IH.
Qed.

Lemma request_enough_fuel fuel fuel' arg m r m' :
  (fuel <= fuel')%nat ->
  request fuel arg m = (Some r, m') -> request fuel' arg m = (Some r, m').
Proof.
  induction 1 as [|fuel' _ IH]; [done|].
  intros H. by apply request_more_fuel, IH.
Qed.

(** What [authorize] writes and what it keeps. *)
Lemma authorize_baseURL st (options : AxiosRequestConfig) :
  authorize st options !! "baseURL" = Some (JStr (replace_slash_end (serverUrl st))).
Proof.
  unfold authorize. destruct (truthy _).
  - rewrite lookup_insert_ne by done. apply lookup_insert_eq.
  - apply lookup_insert_eq.
Qed.

Lemma authorize_headers st (options : AxiosRequestConfig) :
  authorize st options !! "headers" =
  if truthy (token_field st "access_token") then
    Some (JObj (<["Authorization" :=
                    JStr ("Bearer " +:+ toString (token_field st "access_token"))]>
                (own_props (of_lookup (options !! "headers")))))
  else options !! "headers".
Proof.
  unfold authorize. rewrite getPath_token_field.
  destruct (truthy _).
  - rewrite lookup_insert_eq. by rewrite lookup_insert_ne by done.
  - by rewrite lookup_insert_ne by done.
Qed.

Lemma authorize_other st (options : AxiosRequestConfig) (k : string) :
  k <> "headers" -> k <> "baseURL" -> authorize st options !! k = options !! k.
Proof.
  intros Hh Hb. unfold authorize. destruct (truthy _);
    by rewrite !lookup_insert_ne by done.
Qed.




Lemma operation_outcome_rethrow {A} error r m :
  loose_eq_text (getPath (error_obj error) ["response"; "data"; "resourceType"])
    "OperationOutcome" = false ->
  @operation_outcome World A error r m = (Some (Rejected error), m).
Proof. intros H. unfold operation_outcome. by rewrite H. Qed.



(** Without a refresh token a call is one request and no refresh. *)
Lemma request_without_token fuel arg m :
  no_refresh_token (state m) = true ->
  let options := authorize (state m) (options_of arg) in
  request (S fuel) arg m =
  match axios options (world m) with
  | (Fulfilled res, w) => (Some (Fulfilled (res, options)), after_send options w m)
  | (Rejected error, w) =>
      match response error with
      | Some r => operation_outcome error r (after_send options w m)
      | None => (Some (Rejected (Error (getErrorText "no_fhir_response"))),
                 after_send options w m)
      end
  end.
Proof.
  intros Hno options. rewrite request_S. fold options. cbv zeta.
  destruct (axios _ _) as [[res|error] w]; [done|].
  destruct (response error) as [r|] eqn:Hr.
  - apply on_rejected_other; [done|]. cbn [after_send state].
    rewrite no_refresh_token_field in Hno.
    apply negb_true_iff in Hno. rewrite Hno. apply andb_false_r.
  - by apply on_rejected_no_response.
Qed.

Lemma request_state_without_token fuel arg m :
  no_refresh_token (state m) = true ->
  state (request fuel arg m).2 = state m.
Proof.
  intros Hno. destruct fuel as [|fuel]; [done|].
  rewrite request_without_token by done. cbv zeta.
  destruct (axios _ _) as [[res|error] w]; [done|].
  destruct (response error) as [r|]; [|done].
  by destruct (operation_outcome_rejects (A:=AxiosResponse * AxiosRequestConfig)
                 error r (after_send (authorize (state m) (options_of arg)) w m))
    as [e ->].
Qed.

Lemma push_apply_machine result entries m :
  (@push_apply World result entries m).2 = m.
Proof. by destruct entries. Qed.


(** The token response after a merge. *)
Lemma token_field_merge st (d : JsVal) (k : string) :
  token_field (merge_token st d) k =
  match own_props d !! k with
  | Some v => v
  | None => token_field st k
  end.
Proof.
  unfold token_field, merge_token. cbn [tokenResponse set_tokenResponse].
  rewrite lookup_union. destruct (own_props d !! k) as [v|] eqn:Hd.
  - by destruct (default ∅ (tokenResponse st) !! k).
  - destruct (tokenResponse st) as [tr|]; cbn.
    + by destruct (tr !! k).
    + by rewrite lookup_empty.
Qed.

(** The replay differs from the first request in its headers at most. *)
Lemma authorize_replay st (d : JsVal) (options : AxiosRequestConfig) (k : string) :
  k <> "headers" ->
  authorize (merge_token st d) (authorize st options) !! k = authorize st options !! k.
Proof.
  intros Hk. destruct (decide (k = "baseURL")) as [->|Hb].
  - by rewrite !authorize_baseURL.
  - by rewrite (authorize_other (merge_token st d)).
Qed.

(** One page of [getPages]: the entries are appended, the counter is
    decremented, and the walk goes on unless the counter is now zero or the
    page has no next link. *)
Lemma getPages_page fuel arg maxPages result m res options m1 (entries : list JsVal) :
  request (S fuel) (Config (options_of arg)) m =
  (Some (Fulfilled (res, options)), m1) ->
  Js.get (data res) "entry" = Some (JArr entries) ->
  getPages (S fuel) arg maxPages result m =
  if (maxPages - 1 =? 0) || negb (truthy (getBundleURL (data res) "next"))
  then (Some (Fulfilled (result ++ entries)%list), m1)
  else getPages fuel (Config (<["url" := getBundleURL (data res) "next"]> options))
         (maxPages - 1) (result ++ entries)%list m1.
Proof.
  intros Hreq Hentry. step_getPages. rewrite Hreq, Hentry.
  cbn [truthy push_apply]. unfold then_, resolve.
  destruct (maxPages - 1 =? 0); [done|]. cbn [negb orb].
  by destruct (truthy (getBundleURL (data res) "next")).
Qed.

(** ** The rounds of a call *)

#[local] Abbreviation rounds := (rounds axios querystring_stringify).
#[local] Abbreviation round_log := (round_log querystring_stringify).


Lemma rounds_sent m (options : AxiosRequestConfig) rs m' options' :
  rounds m options rs m' options' ->
  sent m' = (sent m ++ round_log rs)%list.
Proof.
  induction 1 as [|m options error r w1 res w2 rs m' options' _ _ _ _ _ _ IH].
  - by rewrite app_nil_r.
  - rewrite IH. cbn [sent]. by rewrite <- app_assoc.
Qed.


(** A call that resolves went through its rounds and then sent the request
    that was answered. *)
Lemma request_fulfilled_rounds fuel arg m res options m' :
  request fuel arg m = (Some (Fulfilled (res, options)), m') ->
  exists rs m1 options1,
    rounds m (options_of arg) rs m1 options1 /\
    (length rs < fuel)%nat /\
    options = authorize (state m1) options1 /\
    axios options (world m1) = (Fulfilled res, world m') /\
    m' = after_send options (world m') m1.
Proof.
  revert arg m. induction fuel as [|fuel IH]; intros arg m; [done|].
  destruct (axios (authorize (state m) (options_of arg)) (world m))
    as [[res0|error] w] eqn:Hsend.
  { rewrite request_S. cbv zeta. rewrite Hsend. intros [= -> <- <-].
    exists [], m, (options_of arg). split; [constructor|].
    split; [cbn; lia|]. by rewrite Hsend. }
  destruct (response error) as [r|] eqn:Hr.
  2:{ rewrite request_S. cbv zeta. rewrite Hsend.
      by rewrite on_rejected_no_response. }
  destruct ((status r =? 401) && truthy (token_field (state m) "refresh_token"))
    eqn:Hc.
  2:{ rewrite request_S. cbv zeta. rewrite Hsend.
      rewrite (on_rejected_other _ _ r) by done.
      by destruct (operation_outcome_rejects
                     (A:=AxiosResponse * AxiosRequestConfig) error r
                     (after_send (authorize (state m) (options_of arg)) w m))
        as [e ->]. }
  apply andb_prop in Hc as [Hs%Z.eqb_eq Ht].
  rewrite (request_refresh_replay fuel arg m error r w) by done.
  destruct (axios (refresh_options (state m)) w) as [[granted|error'] w2] eqn:Hgrant;
    [|done].
  intros Hreplay. apply IH in Hreplay
    as (rs & m1 & options1 & Hrs & Hlen & Hopt & Hanswer & Hm').
  exists ((state m, authorize (state m) (options_of arg)) :: rs), m1, options1.
  split; [by eapply rounds_more|]. split; [cbn [length]; lia | done].
Qed.




(** ** The claims about [request] *)

(** C3, in the form that holds. The base address that [request] hands to the transport
    is [serverUrl] itself when that ends with a slash and [serverUrl] with
    one slash appended otherwise. For a [serverUrl] that ends with at most
    one slash this is [serverUrl] with exactly one trailing slash enforced,
    the same whether the slash was supplied or not; further trailing slashes
    are kept, not collapsed. *)
Theorem request_base_address fuel arg m :
  let s := serverUrl (state m) in
  exists options rest,
    sent (request (S fuel) arg m).2 = (sent m ++ options :: rest)%list /\
    options !! "baseURL" = Some (JStr (replace_slash_end s)) /\
    replace_slash_end s = (if ends_with_slash s then s else s +:+ "/") /\
    ((trailing_slashes s <= 1)%nat -> replace_slash_end s = spec_base_address s) /\
    (ends_with_slash s = false ->
     replace_slash_end (s +:+ "/") = replace_slash_end s).
Proof.
  intros s. destruct (request_sends_first fuel arg m) as [rest Hrest].
  exists (authorize (state m) (options_of arg)), rest.
  split; [exact Hrest|]. split; [apply authorize_baseURL|].
  split; [apply replace_slash_end_cases|].
  split; [apply replace_slash_end_spec|].
  intros Hs. rewrite !replace_slash_end_cases. by rewrite ends_with_slash_app, Hs.
Qed.




(** ** The claims about [refresh] *)

(** C7. [refresh] hands nothing to the transport exactly when the token
    response or its refresh token is absent, and then it is rejected on the
    spot; otherwise it hands over one request: a POST to [tokenUri] with the
    content type of a form and the fields [grant_type] and [refresh_token]
    in its body. *)
Theorem refresh_precondition m :
  let st := state m in
  let m' := (refresh m).2 in
  let absent :=
    tokenResponse st = None \/ truthy (token_field st "refresh_token") = false in
  (absent <-> sent m' = sent m) /\
  (absent ->
   refresh m =
   (Some (Rejected (Error "Trying to refresh but there is no refresh token")), m)) /\
  (~ absent ->
   sent m' = (sent m ++ [refresh_options st])%list /\
   world m' = (axios (refresh_options st) (world m)).2 /\
   refresh_options st =
   <["method" := JStr "POST"]>
   (<["url" := opt_str (tokenUri st)]>
    (<["headers" :=
         JObj (<["content-type" := JStr "application/x-www-form-urlencoded"]> ∅)]>
     (<["data" :=
          JStr (querystring_stringify
                  [("grant_type", JStr "refresh_token");
                   ("refresh_token", token_field st "refresh_token")])]> ∅)))).
Proof.
  intros st m' absent.
  assert (Habs : absent <-> no_refresh_token st = true).
  { unfold absent, no_refresh_token, token_field.
    destruct (tokenResponse st) as [tr|]; [|by intuition].
    rewrite negb_true_iff. split; [by intros [?|?]|by right]. }
  assert (Hyes : no_refresh_token st = true -> refresh m = (_, m))
    by apply refresh_without_token.
  assert (Hno : no_refresh_token st = false ->
                sent m' = (sent m ++ [refresh_options st])%list /\
                world m' = (axios (refresh_options st) (world m)).2).
  { intros H. unfold m'. rewrite refresh_with_token by done. fold st.
    by destruct (axios _ _) as [[res|error] w]. }
  split; [|split].
  - rewrite Habs. split.
    + intros H. unfold m'. by rewrite Hyes.
    + intros Hsent. destruct (no_refresh_token st); [done|].
      destruct Hno as [Hno _]; [done|]. rewrite Hno in Hsent.
      apply (f_equal length) in Hsent. rewrite length_app in Hsent.
      cbn in Hsent. lia.
  - intros H. apply Hyes. by apply Habs.
  - intros H. destruct (no_refresh_token st) eqn:E; [by destruct H; apply Habs|].
    destruct Hno as [Hsent Hworld]; [done|].
    split; [done|]. split; [done|].
    unfold_refresh_options. by rewrite getPath_token_field.
Qed.

(** C5. A refresh that the transport rejects is rejected with the same
    error. Whenever [refresh] is rejected, with that error or with its own,
    the state is left as it was, except for an error that carries a received
    401: then [refresh_token], and nothing else, is removed from the token
    response. *)
Theorem refresh_rejected m :
  let st := state m in
  let m' := (refresh m).2 in
  (forall error w,
     no_refresh_token st = false ->
     axios (refresh_options st) (world m) = (Rejected error, w) ->
     (refresh m).1 = Some (Rejected error)) /\
  (forall error,
     (refresh m).1 = Some (Rejected error) ->
     state m' = if unauthorized error then without_refresh_token st else st) /\
  token_lookup (without_refresh_token st) "refresh_token" = None /\
  (forall k, k <> "refresh_token" ->
             token_lookup (without_refresh_token st) k = token_lookup st k).
Proof.
  intros st m'. split; [|split; [|split]].
  - intros error w Hno Hsend. rewrite refresh_with_token by done.
    fold st. by rewrite Hsend.
  - intros error. unfold m'. destruct (no_refresh_token st) eqn:Hno.
    + rewrite refresh_without_token by done. by intros [= <-].
    + rewrite refresh_with_token by done. fold st.
      destruct (axios _ _) as [[res|error'] w]; [done|]. by intros [= <-].
  - unfold token_lookup, without_refresh_token. cbn [tokenResponse set_tokenResponse].
    destruct (tokenResponse st) as [tr|]; [|done]. apply lookup_delete_eq.
  - intros k Hk. unfold token_lookup, without_refresh_token.
    cbn [tokenResponse set_tokenResponse].
    destruct (tokenResponse st) as [tr|]; [|done]. by apply lookup_delete_ne.
Qed.

(** C10. A refresh that the transport answers resolves with the data of the
    answer, and the token response becomes the old one overwritten by the
    fields of that data: a field of the data has its new value, any other
    field keeps its old one. The rest of the state is unchanged. *)
Theorem refresh_merges_token m res w :
  let st := state m in
  let m' := (refresh m).2 in
  no_refresh_token st = false ->
  axios (refresh_options st) (world m) = (Fulfilled res, w) ->
  (refresh m).1 = Some (Fulfilled (data res)) /\
  (forall k v, own_props (data res) !! k = Some v ->
               token_lookup (state m') k = Some v) /\
  (forall k, own_props (data res) !! k = None ->
             token_lookup (state m') k = token_lookup st k) /\
  state m' = set_tokenResponse (tokenResponse (state m')) st.
Proof.
  intros st m' Hno Hsend. unfold m'. rewrite refresh_with_token by done.
  fold st. rewrite Hsend. cbn [fst snd state].
  split; [done|].
  unfold token_lookup, merge_token. cbn [tokenResponse set_tokenResponse].
  unfold no_refresh_token in Hno.
  destruct (tokenResponse st) as [tr|]; [|done]. cbn.
  split; [|split; [|done]].
  - intros k v Hk. by apply lookup_union_Some_l.
  - intros k Hk. by apply lookup_union_r.
Qed.

(** ** The claim about a state without a refresh token *)


End Properties.

(** ** A server that keeps answering 401 *)

Lemma is_post_authorize st (options : AxiosRequestConfig) :
  is_post (authorize st options) = is_post options.
Proof. unfold is_post. by rewrite authorize_other. Qed.

Lemma is_post_refresh_options stringify st :
  is_post (refresh_options stringify st) = true.
Proof. reflexivity. Qed.

(** Against [expiring] with [n] rejections to come, a call runs [n] cycles
    of refresh and replay and then succeeds. *)
Lemma expiring_cycles (n : nat) :
  forall fuel arg (m : Machine nat),
    world m = n ->
    (n < fuel)%nat ->
    is_post (options_of arg) = false ->
    truthy (token_field (state m) "refresh_token") = true ->
    exists res options m',
      request Examples.expiring Examples.errorText Examples.stringify fuel arg m =
      (Some (Fulfilled (res, options)), m') /\
      length (List.filter is_post (sent m')) =
      (length (List.filter is_post (sent m)) + n)%nat /\
      length (sent m') = (length (sent m) + 2 * n + 1)%nat.
Proof.
  induction n as [|n IH]; intros fuel arg m Hw Hfuel Harg Htok;
    (destruct fuel as [|fuel]; [lia|]).
  - rewrite request_S. cbv zeta. rewrite Hw. unfold Examples.expiring at 1.
    rewrite is_post_authorize, Harg.
    do 3 eexists. split; [reflexivity|]. cbn [after_send sent].
    rewrite List.filter_app, !length_app. cbn [List.filter].
    rewrite is_post_authorize, Harg. cbn. lia.
  - rewrite (request_refresh_replay _ _ _ fuel arg m
               (Examples.failed 401 (JStr "Unauthorized"))
               {| status := 401; data := JStr "Unauthorized"; headers := ∅ |} n);
      [|by rewrite Hw; unfold Examples.expiring; rewrite is_post_authorize, Harg
       |reflexivity|reflexivity|exact Htok].
    unfold Examples.expiring at 1. rewrite is_post_refresh_options.
    edestruct (IH fuel (Config (authorize (state m) (options_of arg))))
      as (res & options & m' & Hrun & Hposts & Hsent); cycle -1.
    + do 3 eexists. split; [exact Hrun|]. cbn [sent] in Hposts, Hsent.
      rewrite List.filter_app, !length_app in Hposts.
      rewrite length_app in Hsent. cbn [List.filter] in Hposts.
      rewrite is_post_authorize, Harg, is_post_refresh_options in Hposts.
      cbn in Hposts, Hsent. lia.
    + reflexivity.
    + lia.
    + cbn [options_of]. by rewrite is_post_authorize.
    + cbn [state]. by rewrite token_field_merge.
Qed.

(** Against [always_401] a call never settles: with [fuel] calls allowed it
    has gone through [fuel] requests and [fuel] refreshes and is pending. *)
Lemma always_401_pending (fuel : nat) :
  forall arg (m : Machine unit),
    is_post (options_of arg) = false ->
    truthy (token_field (state m) "refresh_token") = true ->
    (request Examples.always_401 Examples.errorText Examples.stringify fuel arg m).1
    = None /\
    length (sent (request Examples.always_401 Examples.errorText Examples.stringify
                    fuel arg m).2) = (length (sent m) + 2 * fuel)%nat.
Proof.
  induction fuel as [|fuel IH]; intros arg m Harg Htok.
  - cbn. split; [reflexivity | lia].
  - rewrite (request_refresh_replay _ _ _ fuel arg m
               (Examples.failed 401 (JStr "Unauthorized"))
               {| status := 401; data := JStr "Unauthorized"; headers := ∅ |} tt);
      [|by unfold Examples.always_401; rewrite is_post_authorize, Harg;
           destruct (world m)
       |reflexivity|reflexivity|exact Htok].
    unfold Examples.always_401 at 1 3. rewrite is_post_refresh_options.
    unfold Examples.ok. lazy beta iota.
    match goal with
    | |- context [request _ _ _ fuel ?replayed ?m2] =>
        destruct (IH replayed m2) as [Hnone Hsent]
    end.
    + cbn [options_of]. by rewrite is_post_authorize.
    + cbn [state]. by rewrite token_field_merge.
    + split; [exact Hnone|]. rewrite Hsent. cbn [sent].
      rewrite length_app. cbn. lia.
Qed.

(** ** The claim about refresh and replay *)

(** C1. When the first request of a call is rejected with a received 401
    while a refresh token is present, [request] hands the refresh grant to
    the transport once: if that is rejected, the call ends there, rejected
    with the error of the refresh, and nothing is replayed; if it is
    answered, the call continues as the replay of the same options object in
    the merged state, and what the replay hands to the transport differs
    from the first request in its headers at most. The cycles are not
    capped: against a server that rejects the next [n] requests with 401 the
    call goes through [n] refreshes and [n] replays before it succeeds, and
    against a server that rejects every request with 401 it never settles,
    however many calls it is allowed. *)
Theorem refresh_then_replay :
  (forall World axios getErrorText querystring_stringify fuel arg
          (m : Machine World) error r w1,
     let options := authorize (state m) (options_of arg) in
     let grant := refresh_options querystring_stringify (state m) in
     axios options (world m) = (Rejected error, w1) ->
     response error = Some r ->
     status r = 401 ->
     truthy (token_field (state m) "refresh_token") = true ->
     request axios getErrorText querystring_stringify (S fuel) arg m =
     match axios grant w1 with
     | (Fulfilled res, w2) =>
         request axios getErrorText querystring_stringify fuel (Config options)
           {| state := merge_token (state m) (data res); world := w2;
              sent := (sent m ++ [options; grant])%list |}
     | (Rejected error', w2) =>
         (Some (Rejected error'),
          {| state := if unauthorized error' then without_refresh_token (state m)
                      else state m;
             world := w2; sent := (sent m ++ [options; grant])%list |})
     end /\
     forall (d : JsVal) (k : string),
       k <> "headers" ->
       authorize (merge_token (state m) d) options !! k = options !! k) /\
  (forall n fuel,
     (n < fuel)%nat ->
     exists res options m',
       request Examples.expiring Examples.errorText Examples.stringify fuel
         (Url "Patient/1") (Examples.boot Examples.authorized n) =
       (Some (Fulfilled (res, options)), m') /\
       length (List.filter is_post (sent m')) = n /\
       length (sent m') = (2 * n + 1)%nat) /\
  (forall fuel,
     let run :=
       request Examples.always_401 Examples.errorText Examples.stringify fuel
         (Url "Patient/1") (Examples.boot Examples.authorized tt) in
     run.1 = None /\ length (sent run.2) = (2 * fuel)%nat).
Proof.
  split; [|split].
  - intros World axios getErrorText querystring_stringify fuel arg m error r w1
      options grant Hsend Hr Hs Ht.
    split; [by apply (request_refresh_replay _ _ _ fuel arg m error r w1)|].
    intros d k Hk. by apply authorize_replay.
  - intros n fuel Hfuel.
    destruct (expiring_cycles n fuel (Url "Patient/1")
                (Examples.boot Examples.authorized n))
      as (res & options & m' & Hrun & Hposts & Hsent); try done.
    exists res, options, m'. split; [exact Hrun|]. cbn in Hposts, Hsent.
    split; [exact Hposts | lia].
  - intros fuel run.
    by destruct (always_401_pending fuel (Url "Patient/1")
                   (Examples.boot Examples.authorized tt)).
Qed.

(** ** Walks over linked pages *)

Lemma bundle_entry (entries : list JsVal) next :
  Js.get (Examples.bundle entries next) "entry" = Some (JArr entries).
Proof.
  unfold Examples.bundle, Examples.obj. cbn [Js.get app list_to_map foldr uncurry].
  cbn. rewrite lookup_insert_ne by done. by rewrite lookup_insert_eq.
Qed.

Lemma bundle_no_next (entries : list JsVal) :
  getBundleURL (Examples.bundle entries None) "next" = JNull.
Proof.
  unfold getBundleURL, Examples.bundle, Examples.obj. cbn.
  rewrite !lookup_insert_ne by done. by rewrite lookup_empty.
Qed.

Lemma bundle_next (entries : list JsVal) (u : string) :
  u <> "" -> getBundleURL (Examples.bundle entries (Some u)) "next" = JStr u.
Proof.
  intros Hu. unfold getBundleURL, Examples.bundle, Examples.obj. cbn.
  repeat first [rewrite lookup_insert_eq | rewrite lookup_insert_ne by done
               | progress cbn].
  destruct (String.eqb_spec u ""); [done|reflexivity].
Qed.

(** A request to [static] for a URL that the site knows is answered. *)
Lemma request_static site getErrorText stringify fuel (options : AxiosRequestConfig)
    (m : Machine unit) u b :
  options !! "url" = Some (JStr u) ->
  site u = Some b ->
  request (Examples.static site) getErrorText stringify (S fuel) (Config options) m =
  (Some (Fulfilled ({| status := 200; data := b; headers := ∅ |},
                    authorize (state m) options)),
   after_send (authorize (state m) options) tt m).
Proof.
  intros Hu Hb. rewrite request_S. cbv zeta. cbn [options_of].
  unfold Examples.static at 1. rewrite authorize_other by done.
  rewrite Hu, Hb. by destruct (world m).
Qed.

Lemma pages_fetched_one (n : nat) : pages_fetched 1 (S n) = 1%nat.
Proof. unfold pages_fetched. cbn. lia. Qed.

Lemma pages_fetched_last (maxPages : Z) : pages_fetched maxPages 1 = 1%nat.
Proof. unfold pages_fetched. destruct (1 <=? maxPages) eqn:H; [|done]. lia. Qed.

Lemma pages_fetched_next (maxPages : Z) (n : nat) :
  maxPages <> 1 ->
  pages_fetched maxPages (S (S n)) = S (pages_fetched (maxPages - 1) (S n)).
Proof.
  intros H. unfold pages_fetched.
  destruct (1 <=? maxPages) eqn:H1, (1 <=? maxPages - 1) eqn:H2; lia.
Qed.

(** Over linked pages [getPages] returns the entries of the pages it
    fetches, in order, and it fetches [pages_fetched] of them. *)
Lemma getPages_linked site getErrorText stringify pages :
  linked site pages ->
  forall fuel arg maxPages result (m : Machine unit),
    (length pages <= fuel)%nat ->
    options_of arg !! "url" = Some (JStr (first_url pages)) ->
    let run := getPages (Examples.static site) getErrorText stringify fuel arg
                 maxPages result m in
    let k := pages_fetched maxPages (length pages) in
    run.1 = Some (Fulfilled (result ++ entries_of k pages)%list) /\
    length (sent run.2) = (length (sent m) + k)%nat.
Proof.
  induction 1 as [u entries Hsite | u entries u' entries' pages Hsite Hu' Hlinked IH];
    intros fuel arg maxPages result m Hfuel Hurl;
    (destruct fuel as [|fuel]; [cbn in Hfuel; lia|]); cbn [first_url] in Hurl.
  - cbv zeta.
    rewrite (getPages_page _ _ _ fuel arg maxPages result m _ _ _ entries
               (request_static site getErrorText stringify fuel _ m u _ Hurl Hsite)
               (bundle_entry entries None)).
    cbn [data]. rewrite bundle_no_next. cbn [truthy negb]. rewrite orb_true_r.
    cbn [fst snd after_send sent length]. rewrite pages_fetched_last.
    unfold entries_of. cbn. rewrite app_nil_r, length_app. by cbn.
  - cbv zeta.
    rewrite (getPages_page _ _ _ fuel arg maxPages result m _ _ _ entries
               (request_static site getErrorText stringify fuel _ m u _ Hurl Hsite)
               (bundle_entry entries (Some u'))).
    cbn [data]. rewrite bundle_next by done. cbn [truthy].
    replace (negb (negb (String.eqb u' ""))) with false
      by (by destruct (String.eqb_spec u' "")).
    rewrite orb_false_r. destruct (Z.eqb_spec (maxPages - 1) 0) as [Hone|Hmore].
    + replace maxPages with 1 by lia. cbn [fst snd after_send sent length].
      rewrite pages_fetched_one. unfold entries_of. cbn.
      rewrite app_nil_r, length_app. by cbn.
    + cbn [length] in *. rewrite pages_fetched_next by lia.
      edestruct (IH fuel (Config (<["url" := JStr u']>
                                    (authorize (state m) (options_of arg))))
                   (maxPages - 1) (result ++ entries)%list) as [Hrun Hsent];
        [lia | cbn [options_of first_url]; apply lookup_insert_eq |].
      rewrite Hrun, Hsent. cbn [after_send sent]. rewrite length_app.
      unfold entries_of. cbn. rewrite <- app_assoc. split; [done|lia].
Qed.

(** ** The claim about [getPages] *)

(** C2. [getPages] fetches a page, appends its entries and only then
    decrements the counter; it goes on to the next page unless the counter
    is now zero or the page has no next link. Over [n] linked pages it
    returns the entries of the pages it fetches, in order: the first
    [maxPages] of them, or all when there are fewer, for [maxPages] of one
    and more; but all [n] of them for [maxPages] of zero and less, since a
    counter decremented from there never is zero. Over three linked pages
    that is all three pages for [maxPages = 100], the first two for
    [maxPages = 2], and all three again, with three requests, for
    [maxPages = 0] and [maxPages = -1]. *)
Theorem getPages_page_counter :
  (forall World axios getErrorText querystring_stringify fuel arg maxPages result
          (m m1 : Machine World) res options (entries : list JsVal),
     request axios getErrorText querystring_stringify (S fuel)
       (Config (options_of arg)) m = (Some (Fulfilled (res, options)), m1) ->
     Js.get (data res) "entry" = Some (JArr entries) ->
     getPages axios getErrorText querystring_stringify (S fuel) arg maxPages result m =
     if (maxPages - 1 =? 0) || negb (truthy (getBundleURL (data res) "next"))
     then (Some (Fulfilled (result ++ entries)%list), m1)
     else getPages axios getErrorText querystring_stringify fuel
            (Config (<["url" := getBundleURL (data res) "next"]> options))
            (maxPages - 1) (result ++ entries)%list m1) /\
  (forall site getErrorText querystring_stringify pages fuel arg maxPages result
          (m : Machine unit),
     linked site pages ->
     (length pages <= fuel)%nat ->
     options_of arg !! "url" = Some (JStr (first_url pages)) ->
     let run := getPages (Examples.static site) getErrorText querystring_stringify
                  fuel arg maxPages result m in
     let k := if 1 <=? maxPages then Nat.min (Z.to_nat maxPages) (length pages)
              else length pages in
     run.1 = Some (Fulfilled (result ++ entries_of k pages)%list) /\
     length (sent run.2) = (length (sent m) + k)%nat) /\
  let run maxPages :=
    getPages Examples.three_pages Examples.errorText Examples.stringify 10
      (Url "page1") maxPages [] (Examples.boot Examples.authorized tt) in
  let all := (Examples.page1 ++ Examples.page2 ++ Examples.page3)%list in
  (run 100).1 = Some (Fulfilled all) /\
  (run 2).1 = Some (Fulfilled (Examples.page1 ++ Examples.page2)%list) /\
  length (sent (run 2).2) = 2%nat /\
  (run 0).1 = Some (Fulfilled all) /\
  length (sent (run 0).2) = 3%nat /\
  (run (-1)).1 = Some (Fulfilled all) /\
  length (sent (run (-1)).2) = 3%nat.
Proof.
  split; [|split].
  - intros. by apply getPages_page.
  - intros site getErrorText querystring_stringify pages fuel arg maxPages result m
      Hlinked Hfuel Hurl.
    by apply (getPages_linked site getErrorText querystring_stringify pages Hlinked).
  - vm_compute. repeat split.
Qed.

(** ** The claims at concrete inputs *)

Import Examples.

(** The address of [authorized] has no trailing slash: one is appended. *)
Lemma request_base_address_witness :
  replace_slash_end "http://fhir.example/r4" = "http://fhir.example/r4/".
Proof.
  destruct (request_base_address scripted errorText stringify 0 (Url "Patient")
              (boot authorized []))
    as (options & rest & _ & _ & _ & Hspec & _).
  transitivity (spec_base_address "http://fhir.example/r4"); [|reflexivity].
  apply Hspec. vm_compute. lia.
Defined.

(** C3, as the specification words it, fails for an address with two
    trailing slashes: they are kept, so the base address is not the one with
    exactly one trailing slash, nor the one obtained without any. *)
Lemma base_address_keeps_slashes :
  authorize two_slashes ∅ !! "baseURL" = Some (JStr "http://fhir.example//") /\
  authorize two_slashes ∅ !! "baseURL" <>
  Some (JStr (spec_base_address (serverUrl two_slashes))) /\
  replace_slash_end "http://fhir.example//" <> replace_slash_end "http://fhir.example".
Proof. vm_compute. repeat split; discriminate. Qed.






Lemma refresh_precondition_witness :
  refresh scripted stringify (boot expired []) =
  (Some (Rejected (Error "Trying to refresh but there is no refresh token")),
   boot expired []) /\
  sent (refresh scripted stringify (boot authorized [])).2 =
  [refresh_options stringify authorized].
Proof.
  split.
  - destruct (refresh_precondition scripted stringify (boot expired []))
      as (_ & Habsent & _).
    apply Habsent. right. reflexivity.
  - destruct (refresh_precondition scripted stringify (boot authorized []))
      as (_ & _ & Hpresent).
    destruct Hpresent as (Hsent & _ & _); [|exact Hsent].
    intros [H|H]; discriminate H.
Defined.

Lemma refresh_rejected_witness :
  let m := boot authorized [Rejected invalid_grant] in
  (refresh scripted stringify m).1 = Some (Rejected invalid_grant) /\
  state (refresh scripted stringify m).2 = expired.
Proof.
  intros m.
  destruct (refresh_rejected scripted stringify m) as (Hsame & Hstate & _ & _).
  assert (Hrun : (refresh scripted stringify m).1 = Some (Rejected invalid_grant))
    by (apply (Hsame invalid_grant []); reflexivity).
  split; [exact Hrun|]. rewrite (Hstate invalid_grant Hrun). reflexivity.
Defined.

Lemma refresh_merges_token_witness :
  let m := boot authorized [ok granted] in
  (refresh scripted stringify m).1 = Some (Fulfilled granted) /\
  token_lookup (state (refresh scripted stringify m).2) "access_token" =
  Some (JStr "fresh") /\
  token_lookup (state (refresh scripted stringify m).2) "refresh_token" =
  Some (JStr "renew").
Proof.
  intros m.
  destruct (refresh_merges_token scripted stringify m
              {| status := 200; data := granted; headers := ∅ |} []
              eq_refl eq_refl) as (Hrun & Hnew & Hold & _).
  split; [exact Hrun|]. split.
  - apply Hnew. reflexivity.
  - rewrite Hold; reflexivity.
Defined.


Lemma refresh_then_replay_witness :
  let m := boot authorized 1%nat in
  request expiring errorText stringify 2 (Url "Patient/1") m =
  request expiring errorText stringify 1
    (Config (authorize authorized (options_of (Url "Patient/1"))))
    {| state := merge_token authorized (obj [("access_token", JStr "fresh")]);
       world := 0%nat;
       sent := [authorize authorized (options_of (Url "Patient/1"));
                refresh_options stringify authorized] |}.
Proof.
  intros m. destruct refresh_then_replay as [Hcycle _].
  destruct (Hcycle nat expiring errorText stringify 1%nat (Url "Patient/1") m
              (failed 401 (JStr "Unauthorized"))
              {| status := 401; data := JStr "Unauthorized"; headers := ∅ |}
              0%nat eq_refl eq_refl eq_refl eq_refl) as [Hrun _].
  rewrite Hrun. reflexivity.
Defined.

(** The three linked pages with [maxPages = 0]: three pages are fetched. *)
Lemma getPages_page_counter_witness :
  let run := getPages three_pages errorText stringify 3 (Url "page1") 0 []
               (boot authorized tt) in
  run.1 = Some (Fulfilled [JStr "a"; JStr "b"; JStr "c"; JStr "d"; JStr "e"]) /\
  length (sent run.2) = 3%nat.
Proof.
  destruct getPages_page_counter as (_ & Hlinked & _).
  apply (Hlinked three_pages_site errorText stringify
           [("page1", page1); ("page2", page2); ("page3", page3)]
           3%nat (Url "page1") 0 [] (boot authorized tt)).
  - apply linked_next; [reflexivity | discriminate |].
    apply linked_next; [reflexivity | discriminate |].
    apply linked_last. reflexivity.
  - cbn. lia.
  - reflexivity.
Defined.

(** * Further properties *)

(** ** The scope tests *)

Lemma accepts_lits (w : string) prev s k :
  accepts (lits w) prev s k =
  match strip_prefix w s with
  | Some rest => k (last_char w prev) rest
  | None => false
  end.
Proof.
  revert prev s. induction w as [|c w IH]; intros prev s; [reflexivity|].
  cbn [lits accepts strip_prefix last_char]. destruct s as [|d s]; [reflexivity|].
  destruct (Ascii.eqb_spec c d) as [->|]; [|reflexivity].
  cbn [andb]. apply IH.
Qed.

Lemma strip_prefix_head (c : ascii) (w s rest : string) :
  strip_prefix (String c w) s = Some rest -> exists s', s = String c s'.
Proof.
  destruct s as [|d s]; [discriminate|]. cbn.
  destruct (Ascii.eqb_spec c d) as [->|]; [eauto|discriminate].
Qed.

(** After "launch", an optional group that starts with a character that is
    no word character never decides the match. *)
Lemma launch_group_accepts (c : ascii) (group : string) prev s :
  is_word c = false ->
  accepts (Cat WordBoundary
             (Cat (lits "launch") (Cat (Opt (lits (String c group))) WordBoundary)))
    prev s (fun _ _ => true) =
  accepts launch_re prev s (fun _ _ => true).
Proof.
  intros Hc. unfold launch_re. cbn [accepts]. f_equal.
  rewrite !accepts_lits. destruct (strip_prefix "launch" s) as [rest|]; [|reflexivity].
  cbn [last_char]. rewrite accepts_lits.
  destruct (strip_prefix (String c group) rest) as [rest'|] eqn:Hgroup; [|reflexivity].
  apply strip_prefix_head in Hgroup as [s' ->].
  cbn [word_before word_after]. rewrite Hc.
  change (is_word "h"%char) with true. cbn [xorb negb andb]. apply orb_true_r.
Qed.

Lemma launch_group_search (c : ascii) (group : string) prev s :
  is_word c = false ->
  search (Cat WordBoundary
            (Cat (lits "launch") (Cat (Opt (lits (String c group))) WordBoundary)))
    prev s =
  search launch_re prev s.
Proof.
  intros Hc. revert prev. induction s as [|d s IH]; intros prev;
    cbn [search]; rewrite launch_group_accepts by done; [reflexivity|].
  by rewrite IH.
Qed.

Lemma matches_launch_patient (s : string) :
  matches s launch_patient_re = matches s launch_re.
Proof. by apply launch_group_search. Qed.

Lemma matches_launch_encounter (s : string) :
  matches s launch_encounter_re = matches s launch_re.
Proof. by apply launch_group_search. Qed.

(** X1. [getPatientId] and [getEncounterId] look at the scope only for the
    whole word "launch": two states that differ in their scope alone, and
    agree on whether it has that word, get the same answer and the same
    message from both. The optional [/patient] and [/encounter] of the
    patterns never decide. *)
Theorem launch_scope_test (st st' : ClientState) :
  tokenResponse st = tokenResponse st' ->
  authorizeUri st = authorizeUri st' ->
  matches (scope st) launch_re = matches (scope st') launch_re ->
  getPatientId st = getPatientId st' /\
  getEncounterId st = getEncounterId st' /\
  matches (scope st) launch_patient_re = matches (scope st) launch_re /\
  matches (scope st) launch_encounter_re = matches (scope st) launch_re.
Proof.
  intros Htr Hauth Hscope.
  unfold getPatientId, getEncounterId, has_authorizeUri.
  rewrite !matches_launch_patient, !matches_launch_encounter.
  by rewrite Htr, Hauth, Hscope.
Qed.

(** ** The accessors *)

Lemma answers_field (tr : gmap string JsVal) st (k : string) (r0 : JsVal * list string) :
  tokenResponse st = Some tr ->
  r0.1 = JNull -> length r0.2 = 1%nat ->
  answers st k (if negb (truthy (of_lookup (tr !! k))) then r0
                else (of_lookup (tr !! k), [])).
Proof.
  intros Htr H0 H1. unfold answers, token_field. rewrite Htr.
  destruct (truthy (of_lookup (tr !! k))); cbn [negb]; [by right | by left].
Qed.

Lemma answers_unauthorized st (k : string) (r : JsVal * list string) :
  tokenResponse st = None -> r.1 = JNull -> length r.2 = 1%nat -> answers st k r.
Proof. intros Htr H0 H1. left. unfold token_field. by rewrite Htr. Qed.

(** X2. [getPatientId], [getEncounterId] and [getTokenField] return the
    field of the token response when it holds something truthy, with no
    message, and [null] with exactly one message otherwise. The one
    exception is [getTokenField] with a name that every object inherits and
    that the token response does not define itself: it returns the inherited
    member, with no message. [getTokenField] with the names "patient" and
    "encounter" returns what the two dedicated accessors return. *)
Theorem field_accessors (st : ClientState) :
  answers st "patient" (getPatientId st) /\
  answers st "encounter" (getEncounterId st) /\
  (forall field,
     if from_prototype st field
     then getTokenField field st = (Inherited field, [])
     else exists r, getTokenField field st = (Own r.1, r.2) /\ answers st field r) /\
  (getTokenField "patient" st).1 = Own (getPatientId st).1 /\
  (getTokenField "encounter" st).1 = Own (getEncounterId st).1.
Proof.
  unfold getPatientId, getEncounterId, getTokenField, from_prototype.
  destruct (tokenResponse st) as [tr|] eqn:Htr; cbv zeta.
  - split; [|split; [|split; [|split]]].
    + apply (answers_field tr); [done|by destruct (negb _)..].
    + apply (answers_field tr); [done|by destruct (negb _)..].
    + intros field.
      pose proof (answers_field tr st field
                    (JNull, [("The field " +:+ field +:+
                              " is not available in the token response. ") +:+
                             "Please check if your server supports that."])
                    Htr eq_refl eq_refl) as Hfield.
      destruct (tr !! field) as [value|] eqn:Hvalue.
      * rewrite bool_decide_eq_false_2, andb_false_r by done.
        cbn [of_lookup default from_option id] in Hfield.
        destruct (negb (truthy value)); by eexists (_, _).
      * rewrite bool_decide_eq_true_2, andb_true_r by done.
        destruct (inherited field); [done|]. by eexists (_, _).
    + destruct (tr !! "patient") as [value|]; cbn [of_lookup default from_option id].
      * destruct (negb (truthy value)); [by destruct (negb (matches _ _))|done].
      * change (inherited "patient") with false. cbn.
        by destruct (negb (matches _ _)).
    + destruct (tr !! "encounter") as [value|]; cbn [of_lookup default from_option id].
      * destruct (negb (truthy value)); [by destruct (negb (matches _ _))|done].
      * change (inherited "encounter") with false. cbn.
        by destruct (negb (matches _ _)).
  - split; [|split; [|split; [|split]]].
    + destruct (has_authorizeUri st); by apply answers_unauthorized.
    + destruct (has_authorizeUri st); by apply answers_unauthorized.
    + intros field.
      destruct (has_authorizeUri st); eexists (_, _); (split; [reflexivity|]);
        by apply answers_unauthorized.
    + by destruct (has_authorizeUri st).
    + by destruct (has_authorizeUri st).
Qed.

(** *** The profile of the user *)

Lemma split_slash_free (a : string) :
  slash_free a = true -> split "/" a = [a].
Proof.
  induction a as [|c a IH]; [reflexivity|]. cbn [slash_free split].
  intros [Hc Ha]%andb_prop. apply negb_true_iff in Hc. rewrite Hc.
  by rewrite IH.
Qed.

Lemma split_segment (a b : string) :
  slash_free a = true -> split "/" (a +:+ "/" +:+ b) = a :: split "/" b.
Proof.
  induction a as [|c a IH]; [reflexivity|]. cbn [slash_free].
  intros [Hc Ha]%andb_prop. apply negb_true_iff in Hc.
  rewrite append_cons. cbn [split]. rewrite Hc. by rewrite IH.
Qed.

Lemma truthy_segment (a b : string) : truthy (JStr (a +:+ "/" +:+ b)) = true.
Proof. by destruct a. Qed.

Lemma getUser_of_profile jwt_decode st :
  getUserType jwt_decode st =
  (if truthy (getUserProfile jwt_decode st).1
   then split_profile (getUserProfile jwt_decode st).1 0 else Returned JNull,
   (getUserProfile jwt_decode st).2) /\
  getUserId jwt_decode st =
  (if truthy (getUserProfile jwt_decode st).1
   then split_profile (getUserProfile jwt_decode st).1 1 else Returned JNull,
   (getUserProfile jwt_decode st).2).
Proof.
  unfold getUserType, getUserId.
  destruct (getUserProfile jwt_decode st) as [profile log]. cbn [fst snd].
  by destruct (truthy profile).
Qed.

(** X3. For a profile of the form type/id, whatever follows the id after a
    further slash, [getUserType] returns the type and [getUserId] the id. *)
Theorem user_type_and_id jwt_decode st (kind uid : string) (tail : option string) :
  (getUserProfile jwt_decode st).1 = JStr (kind +:+ "/" +:+ uid +:+ more_segments tail) ->
  slash_free kind = true ->
  slash_free uid = true ->
  (getUserType jwt_decode st).1 = Returned (JStr kind) /\
  (getUserId jwt_decode st).1 = Returned (JStr uid).
Proof.
  intros Hprofile Hkind Huid.
  destruct (getUser_of_profile jwt_decode st) as [-> ->]. cbn [fst].
  rewrite Hprofile, truthy_segment. cbn [split_profile].
  rewrite split_segment by done. unfold index. cbn [lookup list_lookup fmap option_fmap option_map of_lookup default from_option id].
  split; [reflexivity|].
  destruct tail as [t|]; cbn [more_segments].
  - by rewrite split_segment.
  - by rewrite append_empty_r, split_slash_free.
Qed.

(** X4. The other profiles. Without a profile both accessors return
    [null]; a profile that is no string makes both throw a TypeError; a
    profile without a slash is the type, and the id is [undefined]; a
    profile that is an absolute URL, scheme://..., gives the scheme with its
    colon as the type and the empty string as the id. *)
Theorem user_type_and_id_edges jwt_decode st :
  let profile := (getUserProfile jwt_decode st).1 in
  let kind := (getUserType jwt_decode st).1 in
  let uid := (getUserId jwt_decode st).1 in
  (truthy profile = false -> kind = Returned JNull /\ uid = Returned JNull) /\
  (truthy profile = true -> (forall s, profile <> JStr s) ->
   kind = Thrown TypeError /\ uid = Thrown TypeError) /\
  (forall p, profile = JStr p -> p <> "" -> slash_free p = true ->
   kind = Returned (JStr p) /\ uid = Returned JUndefined) /\
  (forall scheme rest, profile = JStr (scheme +:+ "//" +:+ rest) ->
   slash_free scheme = true ->
   kind = Returned (JStr scheme) /\ uid = Returned (JStr "")).
Proof.
  intros profile kind uid. unfold kind, uid.
  destruct (getUser_of_profile jwt_decode st) as [-> ->]. cbn [fst]. fold profile.
  split; [|split; [|split]].
  - by intros ->.
  - intros -> Hstr. destruct profile; try done. by destruct (Hstr s).
  - intros p -> Hp Hfree. cbn [truthy split_profile].
    destruct (String.eqb_spec p ""); [done|]. cbn [negb].
    by rewrite split_slash_free.
  - intros scheme rest -> Hfree.
    change (scheme +:+ "//" +:+ rest) with (scheme +:+ "/" +:+ ("" +:+ "/" +:+ rest)).
    rewrite truthy_segment. cbn [split_profile].
    rewrite split_segment by done. by rewrite split_segment.
Qed.

(** *** Whole words *)

Lemma strip_prefix_append (w s rest : string) :
  strip_prefix w s = Some rest <-> s = w +:+ rest.
Proof.
  revert s. induction w as [|c w IH]; intros s.
  - cbn. split; [by intros [= ->] | by intros ->].
  - destruct s as [|d s]; [by split|]. cbn [strip_prefix]. rewrite append_cons.
    destruct (Ascii.eqb_spec c d) as [->|Hne].
    + rewrite IH. split; [by intros -> | by intros [= ->]].
    + split; [done | by intros [= -> _]].
Qed.

Lemma word_re_accepts (w : string) prev s :
  word_after w = true ->
  (forall prev', word_before (last_char w prev') = true) ->
  accepts (word_re w) prev s (fun _ _ => true) = true <->
  exists post, s = w +:+ post /\ word_before prev = false /\ word_after post = false.
Proof.
  intros Hfirst Hlast. unfold word_re. cbn [accepts]. rewrite accepts_lits.
  destruct (strip_prefix w s) as [rest|] eqn:Hstrip.
  - apply strip_prefix_append in Hstrip as ->.
    assert (Hafter : word_after (w +:+ rest) = true) by (by destruct w).
    rewrite Hafter, Hlast. split.
    + intros [Hb Ha]%andb_prop. exists rest.
      destruct (word_before prev), (word_after rest); done.
    + intros (post & Heq & -> & Hpost). apply String.app_inj in Heq as ->.
      by rewrite Hpost.
  - rewrite andb_false_r. split; [done|].
    intros (post & -> & _). by rewrite (proj2 (strip_prefix_append w _ post)) in Hstrip.
Qed.

Lemma word_re_search (w : string) s :
  word_after w = true ->
  (forall prev', word_before (last_char w prev') = true) ->
  forall prev,
    search (word_re w) prev s = true <->
    exists pre post,
      s = pre +:+ w +:+ post /\
      word_before (last_char pre prev) = false /\
      word_after post = false.
Proof.
  intros Hfirst Hlast. induction s as [|c s IH]; intros prev; cbn [search].
  - rewrite orb_false_r, word_re_accepts by done. split.
    + intros (post & Heq & Hb & Ha). by exists "", post.
    + intros (pre & post & Heq & Hb & Ha). destruct pre; [|done].
      by exists post.
  - rewrite orb_true_iff, word_re_accepts, IH by done. split.
    + intros [(post & Heq & Hb & Ha) | (pre & post & Heq & Hb & Ha)].
      * by exists "", post.
      * exists (String c pre), post. by rewrite append_cons, <- Heq.
    + intros (pre & post & Heq & Hb & Ha). destruct pre as [|d pre].
      * left. by exists post.
      * right. rewrite append_cons in Heq. injection Heq as -> ->.
        by exists pre, post.
Qed.

Lemma matches_word (w s : string) :
  word_after w = true ->
  (forall prev', word_before (last_char w prev') = true) ->
  matches s (word_re w) = true <-> whole_word w s.
Proof. intros Hfirst Hlast. by apply word_re_search. Qed.

(** X15. The scope tests look for whole words. The tests of
    [getPatientId] and [getEncounterId] pass exactly for a scope with the
    whole word "launch", which "launch/patient" and "launch/encounter" both
    have; the test of [getIdToken] passes exactly for a scope with the two
    whole words "openid" and "connect". Without an identity token in the
    token response, [getIdToken] answers [null] with one message, the same
    for all scopes that have both words. *)
Theorem scope_tests_are_whole_words (s : string) :
  (matches s launch_patient_re = true <-> whole_word "launch" s) /\
  (matches s launch_encounter_re = true <-> whole_word "launch" s) /\
  (matches s openid_re && matches s connect_re = true <->
   whole_word "openid" s /\ whole_word "connect" s) /\
  (forall jwt_decode st st',
     tokenResponse st = tokenResponse st' ->
     authorizeUri st = authorizeUri st' ->
     truthy (token_field st "id_token") = false ->
     whole_word "openid" (scope st) /\ whole_word "connect" (scope st) ->
     whole_word "openid" (scope st') /\ whole_word "connect" (scope st') ->
     (getIdToken jwt_decode st).1 = JNull /\
     getIdToken jwt_decode st = getIdToken jwt_decode st').
Proof.
  assert (Hlaunch : matches s launch_re = true <-> whole_word "launch" s)
    by (by apply (matches_word "launch")).
  assert (Hwords : forall t, matches t openid_re && matches t connect_re = true <->
                             whole_word "openid" t /\ whole_word "connect" t).
  { intros t. rewrite andb_true_iff.
    by rewrite (matches_word "openid" t), (matches_word "connect" t). }
  split; [by rewrite matches_launch_patient|].
  split; [by rewrite matches_launch_encounter|].
  split; [apply Hwords|].
  intros jwt_decode st st' Htr Hauth Hid Hst Hst'.
  apply Hwords, andb_prop in Hst as [Ho Hc].
  apply Hwords, andb_prop in Hst' as [Ho' Hc'].
  unfold getIdToken, has_authorizeUri, token_field in *.
  rewrite <- Htr, <- Hauth, Ho, Hc, Ho', Hc'.
  destruct (tokenResponse st) as [tr|].
  - rewrite Hid. by cbn.
  - by destruct (truthy (opt_str (authorizeUri st))).
Qed.

(** ** What a run leaves of the state *)

Lemma same_session_refl st : same_session st st.
Proof. by repeat split. Qed.

Lemma same_session_trans st1 st2 st3 :
  same_session st1 st2 -> same_session st2 st3 -> same_session st1 st3.
Proof.
  intros (? & ? & ? & ? & H12) (? & ? & ? & ? & H23).
  repeat split; [congruence..|]. intros Hsome. by apply H23, H12.
Qed.

Section MoreProperties.

Context {World : Type}.
Variable axios : AxiosRequestConfig -> World -> Settled AxiosResponse * World.
Variable getErrorText : string -> string.
Variable querystring_stringify : list (string * JsVal) -> string.

#[local] Abbreviation refresh_options := (refresh_options querystring_stringify).
#[local] Abbreviation refresh := (refresh axios querystring_stringify).
#[local] Abbreviation request := (request axios getErrorText querystring_stringify).
#[local] Abbreviation getPages := (getPages axios getErrorText querystring_stringify).
#[local] Abbreviation on_rejected :=
  (on_rejected axios getErrorText querystring_stringify).

Implicit Types (m : Machine World) (st : ClientState) (error : JsError).

Lemma refresh_same_session m : same_session (state m) (state (refresh m).2).
Proof.
  destruct (no_refresh_token (state m)) eqn:Hno.
  - rewrite refresh_without_token by done. apply same_session_refl.
  - rewrite refresh_with_token by done.
    destruct (axios _ _) as [[res|error] w]; cbn [snd state].
    + by repeat split.
    + destruct (unauthorized error); [|apply same_session_refl].
      repeat split. cbn. intros [tr ->]. by eexists.
Qed.

Lemma on_rejected_same_session {A} (replay : Promise World A) error m :
  (forall m1, same_session (state m1) (state (replay m1).2)) ->
  same_session (state m) (state (on_rejected replay error m).2).
Proof.
  intros Hreplay. destruct (response error) as [r|] eqn:Hr.
  - destruct ((status r =? 401) && truthy (token_field (state m) "refresh_token"))
      eqn:Hc.
    + apply andb_prop in Hc as [Hs%Z.eqb_eq Ht].
      rewrite (on_rejected_refresh _ _ _ _ _ r) by done. unfold then_.
      pose proof (refresh_same_session m) as Hm.
      destruct (refresh m) as [[[a|e]|] m1]; cbn [snd] in *; try done.
      eapply same_session_trans; [exact Hm | apply Hreplay].
    + rewrite (on_rejected_other _ _ _ _ _ r) by done.
      destruct (operation_outcome_rejects (A:=A) error r m) as [e ->].
      apply same_session_refl.
  - rewrite on_rejected_no_response by done. apply same_session_refl.
Qed.

Lemma request_same_session fuel arg m :
  same_session (state m) (state (request fuel arg m).2).
Proof.
  revert arg m. induction fuel as [|fuel IH]; intros arg m;
    [apply same_session_refl|].
  rewrite request_S. cbv zeta.
  destruct (axios _ _) as [[res|error] w]; [apply same_session_refl|].
  apply (on_rejected_same_session _ error (after_send _ w m)).
  intros m1. apply IH.
Qed.

Lemma getPages_same_session fuel arg maxPages result m :
  same_session (state m) (state (getPages fuel arg maxPages result m).2).
Proof.
  revert arg maxPages result m.
  induction fuel as [|fuel IH]; intros arg maxPages result m;
    [apply same_session_refl|].
  step_getPages.
  pose proof (request_same_session (S fuel) (Config (options_of arg)) m) as Hst.
  destruct (request (S fuel) (Config (options_of arg)) m)
    as [[[[res options]|e]|] m1]; cbn [snd] in *; try done.
  destruct (Js.get (data res) "entry") as [entry|]; [|done].
  unfold then_.
  pose proof (push_apply_machine result (if truthy entry then entry else JArr []) m1)
    as Hm.
  destruct (push_apply _ _ m1) as [[[result'|e]|] m2]; cbn [snd] in *; subst m2;
    try done.
  destruct (negb (maxPages - 1 =? 0)); [|exact Hst].
  destruct (truthy (getBundleURL (data res) "next")); [|exact Hst].
  eapply same_session_trans; [exact Hst | apply IH].
Qed.

(** X5. Whatever the servers answer, [refresh], [request] and [getPages]
    change nothing of the state but the token response: the server address,
    the token endpoint, the authorize address and the scope are the ones
    the client started with, and a token response that was there is still
    there. *)
Theorem runs_keep_the_session fuel arg maxPages result m :
  same_session (state m) (state (refresh m).2) /\
  same_session (state m) (state (request fuel arg m).2) /\
  same_session (state m) (state (getPages fuel arg maxPages result m).2).
Proof.
  split; [apply refresh_same_session|].
  split; [apply request_same_session | apply getPages_same_session].
Qed.

Lemma length_round_log (stringify : list (string * JsVal) -> string)
    (rs : list (ClientState * AxiosRequestConfig)) :
  length (round_log stringify rs) = (2 * length rs)%nat.
Proof.
  unfold round_log. induction rs as [|sr rs IH]; [done|].
  cbn [flat_map app length]. rewrite IH. lia.
Qed.

(** ** The request that is answered *)

(** X6. When [request] resolves, the call went through rounds and then sent
    one more request: every request before the last was answered with a
    401 while a refresh token was at hand and was followed by exactly one
    refresh, which was answered with a grant; the response the call
    resolves with is the transport's answer to the last request; the state
    is the one the last round left; and the last request was authorized for
    that state: it carries the bearer token that is in the state now. *)
Theorem request_resolves_with_last_answer fuel arg m res options m' :
  request fuel arg m = (Some (Fulfilled (res, options)), m') ->
  (exists rs m1 options1,
     rounds axios querystring_stringify m (options_of arg) rs m1 options1 /\
     (length rs < fuel)%nat /\
     options = authorize (state m1) options1 /\
     axios options (world m1) = (Fulfilled res, world m') /\
     state m' = state m1 /\
     sent m' = (sent m ++ round_log querystring_stringify rs ++ [options])%list) /\
  options !! "baseURL" = Some (JStr (replace_slash_end (serverUrl (state m)))) /\
  (truthy (token_field (state m') "access_token") = true ->
   exists sent_headers : gmap string JsVal,
     options !! "headers" = Some (JObj sent_headers) /\
     sent_headers !! "Authorization" =
     Some (JStr ("Bearer " +:+ toString (token_field (state m') "access_token")))).
Proof.
  intros Hrun.
  destruct (request_fulfilled_rounds _ _ _ _ _ _ _ _ _ Hrun)
    as (rs & m1 & options1 & Hrs & Hlen & Hopt & Hanswer & Hm').
  split; [|split].
  - exists rs, m1, options1. repeat (split; [done|]).
    rewrite Hm'. cbn [after_send state sent].
    split; [done|]. rewrite (rounds_sent _ _ _ _ _ _ _ Hrs). by rewrite <- app_assoc.
  - rewrite Hopt, authorize_baseURL.
    destruct (request_same_session fuel arg m) as [Hurl _].
    rewrite Hrun in Hurl. cbn [snd] in Hurl. rewrite Hm' in Hurl.
    cbn [after_send state] in Hurl. by rewrite Hurl.
  - rewrite Hm'. cbn [after_send state]. intros Htoken.
    rewrite Hopt, authorize_headers, Htoken.
    eexists. split; [reflexivity | apply lookup_insert_eq].
Qed.

(** ** The options object that [request] writes into *)

Lemma authorize_again_headers st (options : AxiosRequestConfig) (k : string) :
  k <> "Authorization" ->
  own_props (of_lookup (authorize st options !! "headers")) !! k =
  own_props (of_lookup (options !! "headers")) !! k.
Proof.
  intros Hk. rewrite authorize_headers. destruct (truthy _); [|done].
  cbn [of_lookup default from_option id own_props]. by rewrite lookup_insert_ne.
Qed.

(** Authorizing options that were authorized before, in any state, is
    authorizing them afresh, as long as a token is there now or none was
    there then. *)
Lemma authorize_again st st' (options : AxiosRequestConfig) :
  truthy (token_field st' "access_token") = true \/
  truthy (token_field st "access_token") = false ->
  authorize st' (authorize st options) = authorize st' options.
Proof.
  intros Htoken. apply map_eq. intros k.
  destruct (decide (k = "baseURL")) as [->|Hb]; [by rewrite !authorize_baseURL|].
  destruct (decide (k = "headers")) as [->|Hh];
    [|by rewrite !authorize_other by done].
  rewrite (authorize_headers st'), (authorize_headers st' options).
  destruct (truthy (token_field st' "access_token")) eqn:Hnow.
  - do 2 f_equal. apply map_eq. intros h.
    destruct (decide (h = "Authorization")) as [->|Hne].
    + by rewrite !lookup_insert_eq.
    + rewrite !lookup_insert_ne by done. by apply authorize_again_headers.
  - destruct Htoken as [|Hthen]; [done|]. by rewrite authorize_headers, Hthen.
Qed.

(** With a token at hand, authorizing the options object that the rounds
    of a call leave is authorizing the options the call was given. *)
Lemma rounds_fresh m (options : AxiosRequestConfig) rs m' options' st :
  rounds axios querystring_stringify m options rs m' options' ->
  truthy (token_field st "access_token") = true ->
  authorize st options' = authorize st options.
Proof.
  intros Hrs Hst.
  induction Hrs as [|m options error r w1 res w2 rs m' options' _ _ _ _ _ _ IH];
    [done|].
  rewrite IH. apply authorize_again. by left.
Qed.

(** X7. [request] writes the base address and the headers into the
    caller's options object, and resolves with that object next to the
    response. A later call that is handed the same object, from any
    machine, first sends the object authorized for the state of that time.
    With an access token present then, this is the request that a call with
    the caller's original options would send. With none present then, the
    request carries the headers that the earlier call wrote, and so, if a
    token was present when the earlier call resolved, that old token in its
    [Authorization] header. *)
Theorem options_written_back fuel arg m res options m' fuel' m2 :
  request fuel arg m = (Some (Fulfilled (res, options)), m') ->
  (exists rest,
     sent (request (S fuel') (Config options) m2).2 =
     (sent m2 ++ authorize (state m2) options :: rest)%list) /\
  (truthy (token_field (state m2) "access_token") = true ->
   authorize (state m2) options = authorize (state m2) (options_of arg)) /\
  (truthy (token_field (state m2) "access_token") = false ->
   authorize (state m2) options !! "headers" = options !! "headers" /\
   (truthy (token_field (state m') "access_token") = true ->
    exists stale_headers : gmap string JsVal,
      options !! "headers" = Some (JObj stale_headers) /\
      stale_headers !! "Authorization" =
      Some (JStr ("Bearer " +:+ toString (token_field (state m') "access_token"))))).
Proof.
  intros Hrun.
  destruct (request_fulfilled_rounds _ _ _ _ _ _ _ _ _ Hrun)
    as (rs & m1 & options1 & Hrs & _ & Hopt & _ & Hm').
  split; [|split].
  - apply (request_sends_first axios getErrorText querystring_stringify fuel'
             (Config options) m2).
  - intros Hnow. rewrite Hopt. rewrite authorize_again by (by left).
    by apply (rounds_fresh _ _ _ _ _ _ Hrs).
  - intros Hnow. split; [by rewrite authorize_headers, Hnow|].
    rewrite Hm'. cbn [after_send state]. intros Hthen.
    rewrite Hopt, authorize_headers, Hthen.
    eexists. split; [reflexivity | apply lookup_insert_eq].
Qed.

(** ** The replay *)


(** ** The end of refreshing *)

Lemma no_refresh_token_without st :
  no_refresh_token (without_refresh_token st) = true.
Proof.
  unfold no_refresh_token, without_refresh_token. cbn [tokenResponse set_tokenResponse].
  destruct (tokenResponse st) as [tr|]; [|done]. cbn. by rewrite lookup_delete_eq.
Qed.

Lemma token_field_without st (k : string) :
  k <> "refresh_token" ->
  token_field (without_refresh_token st) k = token_field st k.
Proof.
  intros Hk. unfold token_field, without_refresh_token.
  cbn [tokenResponse set_tokenResponse].
  destruct (tokenResponse st) as [tr|]; [|done]. cbn. by rewrite lookup_delete_ne.
Qed.

(** X9. When the token endpoint answers the refresh of a call with 401,
    the call is rejected with that answer after its two requests and leaves
    a state without refresh token but with the access token it had. From
    such a state on, every call of [request] is exactly one request to the
    transport and leaves the state alone. *)
Theorem refresh_ends_for_good fuel arg m error r w1 error' w2 :
  let options := authorize (state m) (options_of arg) in
  let grant := refresh_options (state m) in
  axios options (world m) = (Rejected error, w1) ->
  response error = Some r ->
  status r = 401 ->
  truthy (token_field (state m) "refresh_token") = true ->
  axios grant w1 = (Rejected error', w2) ->
  unauthorized error' = true ->
  let m' := (request (S fuel) arg m).2 in
  (request (S fuel) arg m).1 = Some (Rejected error') /\
  sent m' = (sent m ++ [options; grant])%list /\
  no_refresh_token (state m') = true /\
  token_field (state m') "access_token" = token_field (state m) "access_token" /\
  (forall fuel' arg' m1,
     state m1 = state m' ->
     let m2 := (request (S fuel') arg' m1).2 in
     state m2 = state m1 /\
     sent m2 = (sent m1 ++ [authorize (state m1) (options_of arg')])%list).
Proof.
  intros options grant Hsend Hr Hs Ht Hgrant H401 m'. unfold m'.
  rewrite (request_refresh_replay _ _ _ fuel arg m error r w1) by done.
  fold options grant. rewrite Hgrant, H401. cbn [fst snd state sent].
  split; [done|]. split; [done|].
  split; [apply no_refresh_token_without|].
  split; [by apply token_field_without|].
  intros fuel' arg' m1 Hm1. cbv zeta.
  assert (Hno : no_refresh_token (state m1) = true)
    by (rewrite Hm1; apply no_refresh_token_without).
  split; [by apply request_state_without_token|].
  rewrite request_without_token by done. cbv zeta.
  destruct (axios (authorize (state m1) (options_of arg')) (world m1))
    as [[res|e] w]; [reflexivity|].
  destruct (response e) as [r'|]; [|reflexivity].
  by destruct (operation_outcome_rejects
                 (A:=AxiosResponse * AxiosRequestConfig) e r'
                 (after_send (authorize (state m1) (options_of arg')) w m1))
    as [e' ->].
Qed.

(** ** What an answered refresh leaves *)

(** X10. The refresh token of the next grant is the one the token
    endpoint returned under [refresh_token], or the old one when it returned
    none. A returned value that is not truthy ([null], the empty string)
    takes the place of the old one as well, and ends refreshing. *)
Theorem refresh_token_rotation m res w :
  let st := state m in
  let st' := state (refresh m).2 in
  let next := match own_props (data res) !! "refresh_token" with
              | Some t => t
              | None => token_field st "refresh_token"
              end in
  no_refresh_token st = false ->
  axios (refresh_options st) (world m) = (Fulfilled res, w) ->
  refresh_options st' !! "data" =
  Some (JStr (querystring_stringify
                [("grant_type", JStr "refresh_token"); ("refresh_token", next)])) /\
  no_refresh_token st' = negb (truthy next).
Proof.
  intros st st' next Hno Hgrant. unfold st'.
  rewrite refresh_with_token by done. fold st. rewrite Hgrant. cbn [snd state].
  split.
  - unfold_refresh_options. rewrite getPath_token_field, token_field_merge.
    rewrite !lookup_insert_ne by done. by rewrite lookup_insert_eq.
  - by rewrite no_refresh_token_field, token_field_merge.
Qed.

Lemma getPatientId_token_field st st' :
  (is_Some (tokenResponse st) <-> is_Some (tokenResponse st')) ->
  token_field st "patient" = token_field st' "patient" ->
  scope st = scope st' ->
  authorizeUri st = authorizeUri st' ->
  getPatientId st = getPatientId st'.
Proof.
  unfold getPatientId, token_field, has_authorizeUri. intros Hsome Hfield -> ->.
  destruct (tokenResponse st) as [tr|], (tokenResponse st') as [tr'|].
  - by rewrite Hfield.
  - destruct Hsome as [Hsome _]. by destruct Hsome as [? ?]; [eexists|].
  - destruct Hsome as [_ Hsome]. by destruct Hsome as [? ?]; [eexists|].
  - reflexivity.
Qed.

Lemma getEncounterId_token_field st st' :
  (is_Some (tokenResponse st) <-> is_Some (tokenResponse st')) ->
  token_field st "encounter" = token_field st' "encounter" ->
  scope st = scope st' ->
  authorizeUri st = authorizeUri st' ->
  getEncounterId st = getEncounterId st'.
Proof.
  unfold getEncounterId, token_field, has_authorizeUri. intros Hsome Hfield -> ->.
  destruct (tokenResponse st) as [tr|], (tokenResponse st') as [tr'|].
  - by rewrite Hfield.
  - destruct Hsome as [Hsome _]. by destruct Hsome as [? ?]; [eexists|].
  - destruct Hsome as [_ Hsome]. by destruct Hsome as [? ?]; [eexists|].
  - reflexivity.
Qed.

Lemma getIdToken_token_field jwt_decode st st' :
  (is_Some (tokenResponse st) <-> is_Some (tokenResponse st')) ->
  token_field st "id_token" = token_field st' "id_token" ->
  scope st = scope st' ->
  authorizeUri st = authorizeUri st' ->
  getIdToken jwt_decode st = getIdToken jwt_decode st'.
Proof.
  unfold getIdToken, token_field, has_authorizeUri. intros Hsome Hfield -> ->.
  destruct (tokenResponse st) as [tr|], (tokenResponse st') as [tr'|].
  - by rewrite Hfield.
  - destruct Hsome as [Hsome _]. by destruct Hsome as [? ?]; [eexists|].
  - destruct Hsome as [_ Hsome]. by destruct Hsome as [? ?]; [eexists|].
  - reflexivity.
Qed.

(** What a refresh, answered or rejected, leaves of a field that the
    answer does not name. *)
Lemma refresh_keeps_field m (k : string) :
  k <> "refresh_token" ->
  (forall res w, axios (refresh_options (state m)) (world m) = (Fulfilled res, w) ->
                 own_props (data res) !! k = None) ->
  token_field (state (refresh m).2) k = token_field (state m) k /\
  (is_Some (tokenResponse (state m)) <->
   is_Some (tokenResponse (state (refresh m).2))).
Proof.
  intros Hk Hres. destruct (no_refresh_token (state m)) eqn:Hno.
  - by rewrite refresh_without_token.
  - rewrite refresh_with_token by done.
    assert (Hsome : is_Some (tokenResponse (state m))).
    { unfold no_refresh_token in Hno. by destruct (tokenResponse (state m)). }
    destruct (axios _ _) as [[res|error] w] eqn:Hgrant; cbn [snd state].
    + split; [|by split; [eexists|]].
      by rewrite token_field_merge, (Hres res w).
    + destruct (unauthorized error); [|done].
      split; [by apply token_field_without|].
      split; [|done]. intros _. destruct Hsome as [tr Htr].
      unfold without_refresh_token. cbn. rewrite Htr. by eexists.
Qed.

(** X11. The launch context outlives a refresh: when the answer of the
    token endpoint names no patient, encounter or identity token,
    [getPatientId], [getEncounterId] and [getIdToken] answer after the
    refresh, answered or rejected, as they did before it. *)
Theorem refresh_keeps_launch_context jwt_decode m :
  (forall res w,
     axios (refresh_options (state m)) (world m) = (Fulfilled res, w) ->
     own_props (data res) !! "patient" = None /\
     own_props (data res) !! "encounter" = None /\
     own_props (data res) !! "id_token" = None) ->
  let st' := state (refresh m).2 in
  getPatientId st' = getPatientId (state m) /\
  getEncounterId st' = getEncounterId (state m) /\
  getIdToken jwt_decode st' = getIdToken jwt_decode (state m).
Proof.
  intros Hres st'.
  destruct (refresh_same_session m)
    as (_ & _ & Hauth & Hscope & _).
  split; [|split].
  - destruct (refresh_keeps_field m "patient") as [Hv Hs]; [done| |].
    + intros res w Hgrant. by destruct (Hres res w Hgrant) as (? & ? & ?).
    + by apply getPatientId_token_field.
  - destruct (refresh_keeps_field m "encounter") as [Hv Hs]; [done| |].
    + intros res w Hgrant. by destruct (Hres res w Hgrant) as (? & ? & ?).
    + by apply getEncounterId_token_field.
  - destruct (refresh_keeps_field m "id_token") as [Hv Hs]; [done| |].
    + intros res w Hgrant. by destruct (Hres res w Hgrant) as (? & ? & ?).
    + by apply getIdToken_token_field.
Qed.

(** ** The entries that [getPages] collects *)

(** X12. [getPages] only adds to the entries it is given: when it
    resolves, its result starts with them. *)
Theorem getPages_keeps_result fuel arg maxPages result m (entries : list JsVal) :
  (getPages fuel arg maxPages result m).1 = Some (Fulfilled entries) ->
  exists added, entries = (result ++ added)%list.
Proof.
  revert arg maxPages result m.
  induction fuel as [|fuel IH]; intros arg maxPages result m; [done|].
  step_getPages.
  destruct (request (S fuel) (Config (options_of arg)) m)
    as [[[[res options]|e]|] m1]; try done.
  destruct (Js.get (data res) "entry") as [entry|]; [|done].
  unfold then_.
  assert (Hpush : forall result' m2,
            push_apply result (if truthy entry then entry else JArr []) m1 =
            (Some (Fulfilled result'), m2) ->
            exists l, result' = (result ++ l)%list).
  { intros result' m2. destruct (if truthy entry then entry else JArr []);
      cbn; intros [= <- _]; first [by eexists | by exists []; rewrite app_nil_r]. }
  destruct (push_apply _ _ m1) as [[[result'|e]|] m2]; try done.
  destruct (Hpush result' m2 eq_refl) as [l ->].
  destruct (negb (maxPages - 1 =? 0)).
  - destruct (truthy (getBundleURL (data res) "next")).
    + intros Hrest. apply IH in Hrest as [added ->].
      exists (l ++ added)%list. by rewrite app_assoc.
    + cbn. intros [= <-]. by eexists.
  - cbn. intros [= <-]. by eexists.
Qed.

End MoreProperties.

(** ** The requests of a walk over linked pages *)

Lemma authorize_url st (options : AxiosRequestConfig) (v : JsVal) :
  authorize st (<["url" := v]> options) = <["url" := v]> (authorize st options).
Proof.
  apply map_eq. intros k.
  destruct (decide (k = "url")) as [->|Hu].
  - rewrite authorize_other by done. by rewrite !lookup_insert_eq.
  - rewrite (lookup_insert_ne (authorize st options)) by done.
    destruct (decide (k = "baseURL")) as [->|Hb]; [by rewrite !authorize_baseURL|].
    destruct (decide (k = "headers")) as [->|Hh].
    + rewrite !authorize_headers. by rewrite lookup_insert_ne by done.
    + rewrite !authorize_other by done. by rewrite lookup_insert_ne by done.
Qed.

Lemma page_request_again st (options : AxiosRequestConfig) (v : JsVal) page :
  page_request st (<["url" := v]> (authorize st options)) page =
  page_request st options page.
Proof.
  unfold page_request. rewrite insert_insert_eq.
  rewrite !authorize_url. f_equal. apply authorize_again.
  destruct (truthy (token_field st "access_token")); auto.
Qed.

Lemma page_request_first st (options : AxiosRequestConfig) u entries :
  options !! "url" = Some (JStr u) ->
  page_request st options (u, entries) = authorize st options.
Proof. intros Hu. unfold page_request. cbn [fst]. by rewrite insert_id. Qed.

Lemma getPages_linked_sent site getErrorText stringify pages :
  linked site pages ->
  forall fuel arg maxPages result (m : Machine unit),
    (length pages <= fuel)%nat ->
    options_of arg !! "url" = Some (JStr (first_url pages)) ->
    sent (getPages (Examples.static site) getErrorText stringify fuel arg
            maxPages result m).2 =
    (sent m ++ (page_request (state m) (options_of arg) <$>
                take (pages_fetched maxPages (length pages)) pages))%list.
Proof.
  induction 1 as [u entries Hsite | u entries u' entries' pages Hsite Hu' Hlinked IH];
    intros fuel arg maxPages result m Hfuel Hurl;
    (destruct fuel as [|fuel]; [cbn in Hfuel; lia|]); cbn [first_url] in Hurl.
  - rewrite (getPages_page _ _ _ fuel arg maxPages result m _ _ _ entries
               (request_static site getErrorText stringify fuel _ m u _ Hurl Hsite)
               (bundle_entry entries None)).
    cbn [data]. rewrite bundle_no_next. cbn [truthy negb]. rewrite orb_true_r.
    cbn [fst snd after_send sent length]. rewrite pages_fetched_last.
    cbn. by rewrite page_request_first.
  - rewrite (getPages_page _ _ _ fuel arg maxPages result m _ _ _ entries
               (request_static site getErrorText stringify fuel _ m u _ Hurl Hsite)
               (bundle_entry entries (Some u'))).
    cbn [data]. rewrite bundle_next by done. cbn [truthy].
    replace (negb (negb (String.eqb u' ""))) with false
      by (by destruct (String.eqb_spec u' "")).
    rewrite orb_false_r. destruct (Z.eqb_spec (maxPages - 1) 0) as [Hone|Hmore].
    + replace maxPages with 1 by lia. cbn [fst snd after_send sent length].
      rewrite pages_fetched_one. cbn. by rewrite page_request_first.
    + cbn [length] in *. rewrite pages_fetched_next by lia.
      rewrite IH; [|lia|cbn [options_of first_url]; apply lookup_insert_eq].
      cbn [after_send sent state options_of take fmap list_fmap].
      rewrite <- app_assoc. cbn [app]. rewrite page_request_first by done.
      do 2 f_equal. apply list_fmap_ext. intros i page _.
      apply page_request_again.
Qed.

Lemma request_static_unknown site getErrorText stringify fuel
    (options : AxiosRequestConfig) (m : Machine unit) u :
  options !! "url" = Some (JStr u) ->
  site u = None ->
  request (Examples.static site) getErrorText stringify (S fuel) (Config options) m =
  (Some (Rejected not_found), after_send (authorize (state m) options) tt m).
Proof.
  intros Hu Hnone. rewrite request_S. cbv zeta. cbn [options_of].
  unfold Examples.static at 1. rewrite authorize_other by done.
  rewrite Hu, Hnone. destruct (world m).
  rewrite (on_rejected_other _ _ _ _ _
             {| status := 404; data := JStr "Not Found"; headers := ∅ |});
    [|reflexivity|reflexivity].
  by apply operation_outcome_rethrow.
Qed.

(** A walk that runs into the missing page is rejected there. *)
Lemma getPages_unknown site getErrorText stringify fuel arg maxPages result
    (m : Machine unit) u :
  options_of arg !! "url" = Some (JStr u) ->
  site u = None ->
  getPages (Examples.static site) getErrorText stringify (S fuel) arg maxPages
    result m =
  (Some (Rejected not_found), after_send (authorize (state m) (options_of arg)) tt m).
Proof.
  intros Hu Hnone. step_getPages.
  by rewrite (request_static_unknown site getErrorText stringify fuel _ m u).
Qed.

Lemma entries_of_S (k : nat) page (pages : list (string * list JsVal)) :
  entries_of (S k) (page :: pages) = (page.2 ++ entries_of k pages)%list.
Proof. reflexivity. Qed.

Lemma getPages_dangling site getErrorText stringify pages :
  dangling site pages ->
  forall fuel arg maxPages result (m : Machine unit),
    (length pages < fuel)%nat ->
    options_of arg !! "url" = Some (JStr (first_url pages)) ->
    let run := getPages (Examples.static site) getErrorText stringify fuel arg
                 maxPages result m in
    (1 <= maxPages <= Z.of_nat (length pages) ->
     run.1 = Some (Fulfilled (result ++ entries_of (Z.to_nat maxPages) pages)%list) /\
     length (sent run.2) = (length (sent m) + Z.to_nat maxPages)%nat) /\
    (~ 1 <= maxPages <= Z.of_nat (length pages) ->
     run.1 = Some (Rejected not_found) /\
     length (sent run.2) = (length (sent m) + S (length pages))%nat).
Proof.
  induction 1
    as [u entries u' Hsite Hu' Hnone | u entries u' entries' pages Hsite Hu' Hrest IH];
    intros fuel arg maxPages result m Hfuel Hurl;
    (destruct fuel as [|fuel]; [cbn in Hfuel; lia|]); cbn [first_url] in Hurl;
    cbv zeta;
    rewrite (getPages_page _ _ _ fuel arg maxPages result m _ _ _ entries
               (request_static site getErrorText stringify fuel _ m u _ Hurl Hsite)
               (bundle_entry entries (Some u')));
    cbn [data]; rewrite bundle_next by done; cbn [truthy];
    (replace (negb (negb (String.eqb u' ""))) with false
       by (by destruct (String.eqb_spec u' "")));
    rewrite orb_false_r;
    destruct (Z.eqb_spec (maxPages - 1) 0) as [Hone|Hmore].
  - split; [intros _ | cbn [length]; lia].
    replace maxPages with 1 by lia. change (Z.to_nat 1) with 1%nat.
    rewrite entries_of_S. cbn [fst snd after_send sent].
    unfold entries_of. cbn. by rewrite app_nil_r, length_app.
  - destruct fuel as [|fuel]; [cbn in Hfuel; lia|].
    rewrite (getPages_unknown site getErrorText stringify fuel _ _ _ _ u')
      by (done || apply lookup_insert_eq).
    split; [cbn [length]; lia | intros _].
    cbn [fst snd after_send sent]. rewrite !length_app. cbn. split; [done|lia].
  - split; [intros _ | cbn [length]; lia].
    replace maxPages with 1 by lia. change (Z.to_nat 1) with 1%nat.
    rewrite entries_of_S. cbn [fst snd after_send sent].
    unfold entries_of. cbn. by rewrite app_nil_r, length_app.
  - specialize (IH fuel (Config (<["url" := JStr u']>
                                   (authorize (state m) (options_of arg))))
                  (maxPages - 1) (result ++ entries)%list
                  (after_send (authorize (state m) (options_of arg)) tt m)).
    cbv zeta in IH. cbn [length] in *.
    destruct IH as [Hcapped Hbroken]; [lia | apply lookup_insert_eq |].
    split.
    + intros Hcap. destruct Hcapped as [Hrun Hsent]; [lia|].
      rewrite Hrun, Hsent. cbn [after_send sent]. rewrite length_app.
      replace (Z.to_nat maxPages) with (S (Z.to_nat (maxPages - 1))) by lia.
      rewrite entries_of_S. cbn [snd length]. rewrite <- app_assoc.
      split; [done|lia].
    + intros Hcap. destruct Hbroken as [Hrun Hsent]; [lia|].
      rewrite Hrun, Hsent. cbn [after_send sent]. rewrite length_app.
      cbn [length]. split; [done|lia].
Qed.

(** X13. Over linked pages [getPages] requests the pages in order, each
    with the caller's options, authorized, in which only the URL is the
    page's: the method, the headers and whatever else the caller set go
    with every page. *)
Theorem walk_requests site getErrorText stringify pages fuel arg maxPages result
    (m : Machine unit) :
  linked site pages ->
  (length pages <= fuel)%nat ->
  options_of arg !! "url" = Some (JStr (first_url pages)) ->
  let k := if 1 <=? maxPages then Nat.min (Z.to_nat maxPages) (length pages)
           else length pages in
  sent (getPages (Examples.static site) getErrorText stringify fuel arg
          maxPages result m).2 =
  (sent m ++ ((fun page => authorize (state m)
                             (<["url" := JStr page.1]> (options_of arg)))
              <$> take k pages))%list.
Proof.
  intros Hlinked Hfuel Hurl.
  by apply (getPages_linked_sent site getErrorText stringify pages Hlinked).
Qed.

(** X14. Over linked pages of which the last links to a page that the
    server does not have, a walk capped within the pages that are there
    returns their entries; any other walk, one capped beyond them or by a
    [maxPages] of zero or less, is rejected with the error of the missing
    page after one request more than there are pages, and the entries
    collected on the way are not returned. *)
Theorem walk_over_missing_page site getErrorText stringify pages fuel arg maxPages
    result (m : Machine unit) :
  dangling site pages ->
  (length pages < fuel)%nat ->
  options_of arg !! "url" = Some (JStr (first_url pages)) ->
  let run := getPages (Examples.static site) getErrorText stringify fuel arg
               maxPages result m in
  (1 <= maxPages <= Z.of_nat (length pages) ->
   run.1 = Some (Fulfilled (result ++ entries_of (Z.to_nat maxPages) pages)%list) /\
   length (sent run.2) = (length (sent m) + Z.to_nat maxPages)%nat) /\
  (~ 1 <= maxPages <= Z.of_nat (length pages) ->
   run.1 = Some (Rejected not_found) /\
   length (sent run.2) = (length (sent m) + S (length pages))%nat).
Proof.
  intros Hdangling Hfuel Hurl.
  by apply (getPages_dangling site getErrorText stringify pages Hdangling).
Qed.

(** ** The further properties at concrete inputs *)

Import Samples.

Lemma launch_scope_test_witness :
  getPatientId (with_scope "launch/encounter" expired) =
  getPatientId (with_scope "launch/patient openid" expired) /\
  getEncounterId (with_scope "launch/encounter" expired) =
  getEncounterId (with_scope "launch/patient openid" expired).
Proof.
  destruct (launch_scope_test (with_scope "launch/encounter" expired)
              (with_scope "launch/patient openid" expired)
              eq_refl eq_refl eq_refl) as (Hpatient & Hencounter & _).
  split; [exact Hpatient | exact Hencounter].
Defined.

Lemma user_type_and_id_witness :
  (getUserType decode signed_in).1 = Returned (JStr "Practitioner") /\
  (getUserId decode signed_in).1 = Returned (JStr "123").
Proof.
  apply (user_type_and_id decode signed_in "Practitioner" "123" None);
    reflexivity.
Defined.

(** The call for "Patient/1" against [expiring], with one 401 ahead. *)
Lemma expiring_once :
  request expiring errorText stringify 2 (Url "Patient/1") (boot authorized 1%nat) =
  (Some (Fulfilled ({| status := 200; data := obj [("resourceType", JStr "Patient")];
                       headers := ∅ |}, replayed)),
   {| state := renewed; world := 0%nat;
      sent := [authorize authorized (options_of (Url "Patient/1"));
               refresh_options stringify authorized; replayed] |}).
Proof. vm_compute. reflexivity. Qed.

Lemma request_resolves_with_last_answer_witness :
  exists (rs : list (ClientState * AxiosRequestConfig))
         (sent_headers : gmap string JsVal),
    length rs = 1%nat /\
    replayed !! "headers" = Some (JObj sent_headers) /\
    sent_headers !! "Authorization" = Some (JStr "Bearer fresh").
Proof.
  destruct (request_resolves_with_last_answer expiring errorText stringify 2
              (Url "Patient/1") (boot authorized 1%nat) _ _ _ expiring_once)
    as ((rs & m1 & options1 & _ & _ & _ & _ & _ & Hsent) & _ & Hbearer).
  destruct (Hbearer eq_refl) as (sent_headers & Hh & Hauth).
  exists rs, sent_headers. split; [|by split].
  apply (f_equal length) in Hsent.
  rewrite !length_app, length_round_log in Hsent.
  cbn [boot sent length] in Hsent. lia.
Defined.

Lemma options_written_back_witness :
  authorize authorized replayed = authorize authorized (options_of (Url "Patient/1")).
Proof.
  destruct (options_written_back expiring errorText stringify 2
              (Url "Patient/1") (boot authorized 1%nat) _ _ _
              0%nat (boot authorized 0%nat) expiring_once)
    as (_ & Hfresh & _).
  apply Hfresh. reflexivity.
Defined.


Lemma refresh_ends_for_good_witness :
  let m := boot authorized [Rejected (failed 401 (JStr "Unauthorized"));
                            Rejected invalid_grant] in
  (request scripted errorText stringify 3 (Url "Patient") m).1 =
  Some (Rejected invalid_grant) /\
  no_refresh_token (state (request scripted errorText stringify 3 (Url "Patient") m).2)
  = true.
Proof.
  intros m.
  destruct (refresh_ends_for_good scripted errorText stringify 2 (Url "Patient") m
              (failed 401 (JStr "Unauthorized"))
              {| status := 401; data := JStr "Unauthorized"; headers := ∅ |}
              [Rejected invalid_grant] invalid_grant []
              eq_refl eq_refl eq_refl eq_refl eq_refl eq_refl)
    as (Hrun & _ & Hno & _).
  split; [exact Hrun | exact Hno].
Defined.

Lemma refresh_token_rotation_witness :
  let m := boot authorized [ok rotated] in
  refresh_options stringify (state (refresh scripted stringify m).2) !! "data" =
  Some (JStr "grant_type=refresh_token&refresh_token=next").
Proof.
  intros m.
  destruct (refresh_token_rotation scripted stringify m
              {| status := 200; data := rotated; headers := ∅ |} []
              eq_refl eq_refl) as [Hdata _].
  rewrite Hdata. reflexivity.
Defined.

Lemma refresh_keeps_launch_context_witness :
  let m := boot signed_in [ok granted] in
  getPatientId (state (refresh scripted stringify m).2) = (JStr "p1", []) /\
  (getIdToken decode (state (refresh scripted stringify m).2)).1 =
  decode (JStr "id.token").
Proof.
  intros m.
  destruct (refresh_keeps_launch_context scripted stringify decode m)
    as (Hpatient & _ & Hid).
  - intros res w [= <- _]. repeat split; reflexivity.
  - rewrite Hpatient, Hid. split; reflexivity.
Defined.

Lemma getPages_keeps_result_witness :
  exists added,
    [JStr "kept"; JStr "a"; JStr "b"; JStr "c"] = ([JStr "kept"] ++ added)%list.
Proof.
  apply (getPages_keeps_result three_pages errorText stringify 5 (Url "page1") 2
           [JStr "kept"] (boot authorized tt)).
  reflexivity.
Defined.

Lemma linked_three : linked three_pages_site three.
Proof.
  apply linked_next; [reflexivity | discriminate |].
  apply linked_next; [reflexivity | discriminate |].
  apply linked_last. reflexivity.
Qed.

Lemma walk_requests_witness :
  (fun options => options !! "url") <$>
  sent (getPages three_pages errorText stringify 3 (Config with_headers_page1) 2 []
          (boot authorized tt)).2 =
  [Some (JStr "page1"); Some (JStr "page2")].
Proof.
  unfold three_pages.
  rewrite (walk_requests three_pages_site errorText stringify three 3
             (Config with_headers_page1) 2 [] (boot authorized tt) linked_three).
  - reflexivity.
  - cbn. lia.
  - reflexivity.
Defined.

Lemma dangling_broken :
  dangling broken_site [("page1", page1); ("page2", page2)].
Proof.
  apply dangling_next; [reflexivity | discriminate |].
  apply (dangling_last _ _ _ "gone"); [reflexivity | discriminate | reflexivity].
Qed.

Lemma walk_over_missing_page_witness :
  (getPages (static broken_site) errorText stringify 3 (Url "page1") 100 []
     (boot authorized tt)).1 = Some (Rejected not_found) /\
  (getPages (static broken_site) errorText stringify 3 (Url "page1") 2 []
     (boot authorized tt)).1 = Some (Fulfilled [JStr "a"; JStr "b"; JStr "c"]).
Proof.
  split.
  - destruct (walk_over_missing_page broken_site errorText stringify
                [("page1", page1); ("page2", page2)] 3 (Url "page1") 100 []
                (boot authorized tt) dangling_broken) as [_ Hbroken];
      [cbn; lia | reflexivity |].
    destruct Hbroken as [Hrun _]; [cbn; lia | exact Hrun].
  - destruct (walk_over_missing_page broken_site errorText stringify
                [("page1", page1); ("page2", page2)] 3 (Url "page1") 2 []
                (boot authorized tt) dangling_broken) as [Hcapped _];
      [cbn; lia | reflexivity |].
    destruct Hcapped as [Hrun _]; [cbn; lia | exact Hrun].
Defined.
